(** * The session of the WebSocket gateway (node/session.go)

    A shallow embedding of [Session] and its methods: the bounded outbound
    queue, the [closed] and [connected] flags, the session mutex, the ping
    timer, the writer loop and the reader loop.  The methods are state
    transformers over a [World]; what they do to the outside (the
    connection, the node, the timer) is recorded in a chronological trace. *)

From Stdlib.Strings Require Import String Ascii Byte.
From Stdlib Require Import DecimalString DecimalPos DecimalZ.
From Stdlib Require Import ZArith List Bool Lia.
Import ListNotations.
Open Scope Z_scope.

(** ** Constants *)

(** gorilla/websocket close codes (RFC 6455, section 11.7). *)
Definition CloseNormalClosure : Z := 1000.
Definition CloseGoingAway : Z := 1001.
Definition CloseNoStatusReceived : Z := 1005.
Definition CloseAbnormalClosure : Z := 1006.
Definition CloseInternalServerErr : Z := 1011.

(** [time.Duration] counts nanoseconds. *)
Definition Second : Z := 1000000000.
Definition writeWait : Z := 10 * Second.
Definition pingInterval : Z := 3 * Second.

Definition expectedCloseStatuses : list Z :=
  [CloseNormalClosure; CloseGoingAway; CloseNoStatusReceived].

(** ** Frames *)

(** [type frameType int] *)
Definition frameType := Z.
Definition textFrame : frameType := 0.
Definition closeFrame : frameType := 1.

Record sentFrame := mkFrame {
  ftype : frameType;
  payload : list byte;
  closeCode : Z;
  closeReason : string
}.

(** Go's zero values fill the fields a composite literal leaves out. *)
Definition text_frame (msg : list byte) : sentFrame :=
  mkFrame textFrame msg 0 EmptyString.
Definition close_frame (reason : string) (code : Z) : sentFrame :=
  mkFrame closeFrame [] code reason.

(** ** Buffered channel *)

Record Chan := mkChan {
  buf : list sentFrame;
  cap : nat;
  chclosed : bool
}.

Definition make_chan (n : nat) : Chan := mkChan [] n false.

Definition chan_full (c : Chan) : bool := (cap c <=? length (buf c))%nat.

Definition chan_push (c : Chan) (f : sentFrame) : Chan :=
  mkChan (buf c ++ [f]) (cap c) (chclosed c).

(** ** Session *)

Record Timer := mkTimer {
  tdur : Z;
  tactive : bool
}.

(** The fields of [Session] the methods below read or write.  [send = None]
    is the nil channel; [mu] is true while the mutex is held. *)
Record Session := mkSession {
  send : option Chan;
  closed : bool;
  connected : bool;
  mu : bool;
  pingTimer : option Timer
}.

(** What one write on the connection comes to: [NextWriter] fails, the
    flush in [w.Close()] fails, or the message goes out. *)
Inductive WriteOutcome := WriteOk | NextWriterErr | FlushErr.

Definition write_failed (o : WriteOutcome) : bool :=
  match o with WriteOk => false | _ => true end.

(** What a run leaves behind, in order: the entries into [Disconnect] and
    [Close] with their arguments, [s.node.Disconnect(s)] (the order for the
    RPC disconnect), [close(s.send)], a text message written on the
    connection (when, what, under which deadline, whether the session
    mutex was held, how it ended), [utils.CloseWS], [time.AfterFunc] on the
    ping timer, [pingTimer.Stop()], and the error logged for a frame of
    unknown type. *)
Inductive Event :=
| EvDisconnect (reason : string) (code : Z)
| EvClose (reason : string) (code : Z)
| EvNodeDisconnect
| EvChanClose
| EvWrite (at_time : Z) (msg : list byte) (deadline : Z) (locked : bool)
          (res : WriteOutcome)
| EvCloseWS (code : Z) (reason : string) (locked : bool)
| EvTimerArm (d : Z) (locked : bool)
| EvTimerStop
| EvUnknownFrame (f : sentFrame).

(** The peer: the [n]-th write on the connection has outcome [fst (conn n)]
    and takes [snd (conn n)] nanoseconds. *)
Record World := mkWorld {
  sess : Session;
  now : Z;
  wcount : nat;
  conn : nat -> WriteOutcome * Z;
  trace : list Event
}.

(** ** Outcomes and the monad *)

(** A call returns a value, or waits where it stands (a held mutex, a
    channel with nothing to receive, a socket with nothing to read), or
    panics (nothing in the package recovers), or the model ran out of call
    depth or loop fuel. *)
Inductive Res (A : Type) :=
| Ret (a : A) (w : World)
| Block (w : World)
| Panic
| OutOfFuel.
Arguments Ret {A} a w.
Arguments Block {A} w.
Arguments Panic {A}.
Arguments OutOfFuel {A}.

Definition M (A : Type) := World -> Res A.

Definition ret {A} (a : A) : M A := fun w => Ret a w.

Definition bind {A B} (m : M A) (f : A -> M B) : M B :=
  fun w => match m w with
           | Ret a w' => f a w'
           | Block w' => Block w'
           | Panic => Panic
           | OutOfFuel => OutOfFuel
           end.

Declare Scope go_scope.
Delimit Scope go_scope with go.
Notation "x <- m ;; k" := (bind m (fun x => k))
  (at level 61, m at next level, right associativity) : go_scope.
Notation "m ;; k" := (bind m (fun _ => k))
  (at level 61, right associativity) : go_scope.
Open Scope go_scope.

(** ** Primitive steps *)

Definition upd_sess (f : Session -> Session) : M unit :=
  fun w => Ret tt (mkWorld (f (sess w)) (now w) (wcount w) (conn w) (trace w)).

Definition read {A} (f : Session -> A) : M A := fun w => Ret (f (sess w)) w.

Definition emit (e : Event) : M unit :=
  fun w => Ret tt (mkWorld (sess w) (now w) (wcount w) (conn w) (trace w ++ [e])).

Definition time_Now : M Z := fun w => Ret (now w) w.

Definition set_send (c : option Chan) (s : Session) : Session :=
  mkSession c (closed s) (connected s) (mu s) (pingTimer s).
Definition set_closed (b : bool) (s : Session) : Session :=
  mkSession (send s) b (connected s) (mu s) (pingTimer s).
Definition set_connected (b : bool) (s : Session) : Session :=
  mkSession (send s) (closed s) b (mu s) (pingTimer s).
Definition set_mu (b : bool) (s : Session) : Session :=
  mkSession (send s) (closed s) (connected s) b (pingTimer s).
Definition set_pingTimer (t : option Timer) (s : Session) : Session :=
  mkSession (send s) (closed s) (connected s) (mu s) t.

(** [sync.Mutex] is not reentrant: [Lock] on a held mutex waits; [Unlock] of
    a free one is a fatal error. *)
Definition Lock : M unit :=
  fun w => if mu (sess w) then Block w else upd_sess (set_mu true) w.

Definition Unlock : M unit :=
  fun w => if mu (sess w) then upd_sess (set_mu false) w else Panic.

(** [close(c)]: closing a closed channel panics. *)
Definition chan_close (c : Chan) : M Chan :=
  if chclosed c then fun _ => Panic
  else emit EvChanClose ;; ret (mkChan (buf c) (cap c) true).

(** One [select] with a send case and a [default]: the send is taken when
    the buffer has room, it panics on a closed channel, and otherwise the
    default runs ([None]). *)
Definition try_send (c : Chan) (f : sentFrame) : M (option Chan) :=
  if chclosed c then fun _ => Panic
  else if chan_full c then ret None
  else ret (Some (chan_push c f)).

(** ** Send, Close, Disconnect

    [sendFrame] defers [Disconnect], which calls [Close], which calls
    [sendClose] and so [sendFrame] again.  The bodies are written over the
    callee and the knot is tied on a call depth. *)

Definition sendFrame_body (Disconnect : string -> Z -> M unit)
    (frame : sentFrame) : M unit :=
  Lock ;;
  ch <- read send ;;
  match ch with
  | None => Unlock
  | Some c =>
      r <- try_send c frame ;;
      match r with
      | Some c' => upd_sess (set_send (Some c')) ;; Unlock
      | None =>
          (* s.send != nil holds here *)
          chan_close c ;;
          upd_sess (set_send None) ;;
          Unlock ;;
          Disconnect "Write failed"%string CloseAbnormalClosure
      end
  end.

Definition timer_Stop : M unit :=
  t <- read pingTimer ;;
  match t with
  | Some tm =>
      upd_sess (set_pingTimer (Some (mkTimer (tdur tm) false))) ;;
      emit EvTimerStop
  | None => ret tt
  end.

Definition Close_body (sendFrame : sentFrame -> M unit)
    (reason : string) (code : Z) : M unit :=
  emit (EvClose reason code) ;;
  Lock ;;
  c <- read closed ;;
  if c then Unlock
  else
    upd_sess (set_closed true) ;;
    Unlock ;;
    sendFrame (close_frame reason code) ;;
    timer_Stop.

Definition Disconnect_body (Close : string -> Z -> M unit)
    (reason : string) (code : Z) : M unit :=
  emit (EvDisconnect reason code) ;;
  Lock ;;
  was <- read connected ;;
  upd_sess (set_connected false) ;;
  Unlock ;;
  Close reason code ;;
  if was then emit EvNodeDisconnect else ret tt.

Fixpoint sendFrame_at (depth : nat) (frame : sentFrame) : M unit :=
  match depth with
  | O => fun _ => OutOfFuel
  | S d =>
      sendFrame_body (Disconnect_body (Close_body (sendFrame_at d))) frame
  end.

Definition call_depth : nat := 2.

Definition sendFrame : sentFrame -> M unit := sendFrame_at call_depth.
Definition Close : string -> Z -> M unit := Close_body sendFrame.
Definition Disconnect : string -> Z -> M unit := Disconnect_body Close.

Definition sendClose (reason : string) (code : Z) : M unit :=
  sendFrame (close_frame reason code).

Definition Send (msg : list byte) : M unit := sendFrame (text_frame msg).

(** ** Writing to the connection *)

(** [SetWriteDeadline], [NextWriter], [w.Write] and [w.Close] on the
    connection: one entry of the trace, with the deadline in force, whether
    the session mutex is held, and the outcome the peer gives. *)
Definition ws_write (message : list byte) (deadline : Z) : M WriteOutcome :=
  fun w =>
    let o := fst (conn w (wcount w)) in
    let dt := snd (conn w (wcount w)) in
    Ret o (mkWorld (sess w) (now w + dt) (S (wcount w)) (conn w)
             (trace w ++ [EvWrite (now w) message deadline (mu (sess w)) o])).

(** [write] returns whether [err != nil]. *)
Definition write (message : list byte) (deadline : Z) : M bool :=
  Lock ;;
  o <- ws_write message deadline ;;
  Unlock ;;
  ret (write_failed o).

(** [utils.CloseWS(s.ws, code, reason)]: the helper gets the connection
    only, not the session. *)
Definition CloseWS (code : Z) (reason : string) : M unit :=
  l <- read mu ;;
  emit (EvCloseWS code reason l).

(** ** Ping *)

Record pingMessage := mkPing {
  Type_ : string;
  Message : Z
}.

Definition dquote : string := String "034"%char EmptyString.

(** [json.Marshal] of the two fields, in declaration order.  [Type_] is
    printed between quotes as it is, which is what [json.Marshal] does for
    a string of plain letters such as the one literal [newPingMessage]
    passes; a string with a character [json.Marshal] escapes is outside
    this definition.  [Message] holds an [int64]. *)
Definition toJSON (p : pingMessage) : list byte :=
  list_byte_of_string
    ("{" ++ dquote ++ "type" ++ dquote ++ ":" ++ dquote ++ Type_ p ++ dquote
     ++ "," ++ dquote ++ "message" ++ dquote ++ ":"
     ++ NilZero.string_of_int (Z.to_int (Message p)) ++ "}")%string.

(** [time.Time.Unix]: whole seconds since the epoch. *)
Definition Unix (t : Z) : Z := t / Second.

Definition newPingMessage : M (list byte) :=
  t <- time_Now ;;
  ret (toJSON (mkPing "ping" (Unix t))).

(** [s.pingTimer = time.AfterFunc(d, s.sendPing)]: the field points to the
    timer just started.  A timer the field pointed to before is not
    stopped by this and is out of the session's sight; only the field is
    kept here. *)
Definition time_AfterFunc (d : Z) : M unit :=
  l <- read mu ;;
  upd_sess (set_pingTimer (Some (mkTimer d true))) ;;
  emit (EvTimerArm d l).

Definition addPing : M unit :=
  Lock ;;
  c <- read closed ;;
  if c then Unlock
  else time_AfterFunc pingInterval ;; Unlock.

Definition sendPing : M unit :=
  t <- time_Now ;;
  let deadline := t + Z.quot pingInterval 2 in
  msg <- newPingMessage ;;
  err <- write msg deadline ;;
  if err then Disconnect "Ping failed"%string CloseAbnormalClosure
  else addPing.

(** ** The writer loop *)

(** [<-s.send]: a nil channel and an open empty one make the receiver wait;
    a closed empty one yields [!ok]. *)
Definition recv : M (option sentFrame) :=
  fun w =>
    match send (sess w) with
    | None => Block w
    | Some c =>
        match buf c with
        | f :: rest =>
            Ret (Some f)
              (mkWorld (set_send (Some (mkChan rest (cap c) (chclosed c))) (sess w))
                 (now w) (wcount w) (conn w) (trace w))
        | [] => if chclosed c then Ret None w else Block w
        end
    end.

(** The [return] statement by which [SendMessages] leaves its loop. *)
Inductive WriterExit :=
| ExitQueueClosed
| ExitWriteError
| ExitCloseFrame
| ExitUnknownFrame.

Fixpoint SendMessages_loop (fuel : nat) : M WriterExit :=
  match fuel with
  | O => fun _ => OutOfFuel
  | S n =>
      r <- recv ;;
      match r with
      | None => ret ExitQueueClosed
      | Some message =>
          if ftype message =? textFrame then
            t <- time_Now ;;
            err <- write (payload message) (t + writeWait) ;;
            if err then ret ExitWriteError else SendMessages_loop n
          else if ftype message =? closeFrame then
            CloseWS (closeCode message) (closeReason message) ;;
            ret ExitCloseFrame
          else
            emit (EvUnknownFrame message) ;;
            ret ExitUnknownFrame
      end
  end.

Definition SendMessages (fuel : nat) : M WriterExit :=
  r <- SendMessages_loop fuel ;;
  Disconnect "Write Failed"%string CloseAbnormalClosure ;;
  ret r.

(** ** The reader loop *)

(** The errors of [ws.ReadMessage]: a [*websocket.CloseError] with the
    peer's status, or anything else. *)
Inductive ReadError :=
| CloseError (code : Z) (text : string)
| OtherError (text : string).

Inductive ReadResult :=
| ReadOk (message : list byte)
| ReadErr (e : ReadError).

(** [websocket.IsCloseError(err, codes...)] *)
Definition IsCloseError (e : ReadError) (codes : list Z) : bool :=
  match e with
  | CloseError c _ => existsb (Z.eqb c) codes
  | OtherError _ => false
  end.

Section Reader.
(** [s.node.HandleCommand(s, message)] *)
Variable HandleCommand : list byte -> M unit.

(** [inbox] is what the successive [ws.ReadMessage] calls return; with
    nothing left to read the loop waits on the socket. *)
Fixpoint ReadMessages (inbox : list ReadResult) : M unit :=
  match inbox with
  | [] => fun w => Block w
  | ReadOk message :: rest => HandleCommand message ;; ReadMessages rest
  | ReadErr err :: _ =>
      if IsCloseError err expectedCloseStatuses then
        Disconnect "Read closed"%string CloseNormalClosure
      else
        Disconnect "Read failed"%string CloseAbnormalClosure
  end.
End Reader.

(** ** NewSession *)

Definition new_session : Session :=
  mkSession (Some (make_chan 256)) false false false None.

Section Constructor.
(** [node.Authenticate(session)], returning whether [err != nil]. *)
Variable Authenticate : M bool.

(** The writer started by [go session.SendMessages()] runs on its own;
    the deferred [Close] runs last. *)
Definition NewSession : M bool :=
  upd_sess (fun _ => new_session) ;;
  err <- Authenticate ;;
  addPing ;;
  (if err then Close "Auth Error"%string CloseInternalServerErr else ret tt) ;;
  ret err.
End Constructor.

(** ** Sessions at rest *)

Definition queue (w : World) : list sentFrame :=
  match send (sess w) with
  | Some c => buf c
  | None => []
  end.

(** The frame types [Send] and [sendClose] build. *)
Definition known_frame (f : sentFrame) : Prop :=
  ftype f = textFrame \/ ftype f = closeFrame.

Definition chan_ok (c : Chan) : Prop :=
  chclosed c = false /\ (List.length (buf c) <= cap c)%nat /\
  cap c = 256%nat /\ Forall known_frame (buf c).

(** Between two calls nobody holds the mutex, and the channel the session
    points to is the open one made by [NewSession]. *)
Definition idle (w : World) : Prop :=
  mu (sess w) = false /\
  match send (sess w) with
  | Some c => chan_ok c
  | None => True
  end.

(** ** Runs of calls on one session *)

Inductive Op :=
| OpSend (msg : list byte)
| OpClose (reason : string) (code : Z)
| OpDisconnect (reason : string) (code : Z)
| OpAddPing
| OpSendPing
| OpWriter.

(** The writer goroutine, given the processor until it returns or waits. *)
Definition writer_turn : M unit :=
  fun w =>
    match SendMessages (S (List.length (queue w))) w with
    | Ret _ w' => Ret tt w'
    | Block w' => Ret tt w'
    | Panic => Panic
    | OutOfFuel => OutOfFuel
    end.

Definition run_op (o : Op) : M unit :=
  match o with
  | OpSend msg => Send msg
  | OpClose reason code => Close reason code
  | OpDisconnect reason code => Disconnect reason code
  | OpAddPing => addPing
  | OpSendPing => sendPing
  | OpWriter => writer_turn
  end.

Fixpoint run_ops (ops : list Op) : M unit :=
  match ops with
  | [] => ret tt
  | o :: rest => run_op o ;; run_ops rest
  end.

(** Calls of one method in a row, each on the world the one before left. *)
Fixpoint Sends (msgs : list (list byte)) : M unit :=
  match msgs with
  | [] => ret tt
  | msg :: rest => Send msg ;; Sends rest
  end.

Fixpoint Disconnects (calls : list (string * Z)) : M unit :=
  match calls with
  | [] => ret tt
  | (reason, code) :: rest => Disconnect reason code ;; Disconnects rest
  end.

Fixpoint handle_all (HandleCommand : list byte -> M unit)
    (msgs : list (list byte)) : M unit :=
  match msgs with
  | [] => ret tt
  | msg :: rest => HandleCommand msg ;; handle_all HandleCommand rest
  end.

(** ** Worlds to run on *)

Definition world0 : World :=
  mkWorld new_session 0 0 (fun _ => (WriteOk, 0)) [].

(** A fresh session that [node.Authenticate] has marked connected. *)
Definition connected_world : World :=
  mkWorld (set_connected true new_session) 0 0 (fun _ => (WriteOk, 0)) [].

(** A full queue, as [addPing] and 256 sends leave [connected_world] when
    the writer does not get to run. *)
Definition full_world : World :=
  mkWorld
    (mkSession (Some (mkChan (repeat (text_frame []) 256) 256 false))
       false true false (Some (mkTimer pingInterval true)))
    0 0 (fun _ => (WriteOk, 0)) [EvTimerArm pingInterval true].

(** A fresh session while [write] is on the socket: the mutex is held. *)
Definition writing_world : World :=
  mkWorld (set_mu true new_session) 0 0 (fun _ => (WriteOk, 0)) [].

(** A session after [Close "bye" CloseNormalClosure] on a fresh one. *)
Definition closed_world : World :=
  mkWorld
    (mkSession (Some (mkChan [close_frame "bye" CloseNormalClosure] 256 false))
       true false false None)
    0 0 (fun _ => (WriteOk, 0)) [EvClose "bye" CloseNormalClosure].

(** ** Reading worlds and traces *)

Definition put_sess (s : Session) (w : World) : World :=
  mkWorld s (now w) (wcount w) (conn w) (trace w).

Definition log (evs : list Event) (w : World) : World :=
  mkWorld (sess w) (now w) (wcount w) (conn w) (trace w ++ evs).

Definition stopped (t : option Timer) : option Timer :=
  match t with
  | Some tm => Some (mkTimer (tdur tm) false)
  | None => None
  end.

(** The world a write under the mutex leaves. *)
Definition after_write (message : list byte) (deadline : Z) (w : World) : World :=
  mkWorld (sess w) (now w + snd (conn w (wcount w))) (S (wcount w)) (conn w)
    (trace w ++
     [EvWrite (now w) message deadline true (fst (conn w (wcount w)))]).

(** The world once the writer has received the head of the queue, [b]
    being the frames behind it. *)
Definition taken (b : list sentFrame) (c : Chan) (w : World) : World :=
  put_sess (set_send (Some (mkChan b (cap c) (chclosed c))) (sess w)) w.

(** The session once the writer has taken all but [rest] from the queue. *)
Definition drained (rest : list sentFrame) (s : Session) : Session :=
  set_send
    (option_map (fun c => mkChan rest (cap c) (chclosed c)) (send s)) s.

Definition count (p : Event -> bool) (evs : list Event) : nat :=
  List.length (filter p evs).

Definition is_chan_close (e : Event) : bool :=
  match e with EvChanClose => true | _ => false end.

Definition is_node_disconnect (e : Event) : bool :=
  match e with EvNodeDisconnect => true | _ => false end.

Definition is_disconnect_with (code : Z) (e : Event) : bool :=
  match e with EvDisconnect _ c => c =? code | _ => false end.

Definition is_close_with (code : Z) (e : Event) : bool :=
  match e with EvClose _ c => c =? code | _ => false end.

Definition is_timer_arm (e : Event) : bool :=
  match e with EvTimerArm _ _ => true | _ => false end.

Definition is_close_ws (e : Event) : bool :=
  match e with EvCloseWS _ _ _ => true | _ => false end.

(** A write on the connection made with the session mutex held. *)
Definition under_mutex (e : Event) : Prop :=
  match e with
  | EvWrite _ _ _ locked _ => locked = true
  | EvCloseWS _ _ locked => locked = true
  | _ => True
  end.

(** What the writer loop does to the connection: text messages with the
    mutex held, the close message without. *)
Definition writer_locking (e : Event) : Prop :=
  match e with
  | EvWrite _ _ _ locked _ => locked = true
  | EvCloseWS _ _ locked => locked = false
  | _ => False
  end.

(** A text frame written by the writer loop: under the mutex, with the
    deadline [writeWait] after the moment of writing. *)
Definition text_write (e : Event) : Prop :=
  match e with
  | EvWrite at_time _ deadline locked _ =>
      deadline = at_time + writeWait /\ locked = true
  | _ => False
  end.

Definition write_result (e : Event) : option WriteOutcome :=
  match e with
  | EvWrite _ _ _ _ res => Some res
  | _ => None
  end.

Definition good_write (e : Event) : Prop :=
  text_write e /\ write_result e = Some WriteOk.

Definition failed_write (e : Event) : Prop :=
  text_write e /\
  exists o, write_result e = Some o /\ write_failed o = true.

(** How a run of the writer loop from [w] can end: waiting on a drained
    queue that is not closed, or returning on a drained and closed queue, on
    a failed write, or on a close frame passed to the connection.  [done]
    is what the loop took from the queue, [rest] what it left there, and
    [evs] what it did to the connection, in order. *)
Definition writer_outcome (w : World) (res : Res WriterExit) : Prop :=
  exists w' evs done rest,
    trace w' = trace w ++ evs /\
    sess w' = drained rest (sess w) /\
    queue w = done ++ rest /\
    ((res = Block w' /\ rest = [] /\ Forall good_write evs /\
      forall c, send (sess w) = Some c -> chclosed c = false)
     \/
     (res = Ret ExitQueueClosed w' /\ rest = [] /\ Forall good_write evs /\
      exists c, send (sess w) = Some c /\ chclosed c = true)
     \/
     (res = Ret ExitWriteError w' /\
      exists evs0 e, evs = evs0 ++ [e] /\ Forall good_write evs0 /\
                     failed_write e)
     \/
     (res = Ret ExitCloseFrame w' /\
      exists evs0 pre f,
        evs = evs0 ++ [EvCloseWS (closeCode f) (closeReason f) false] /\
        Forall good_write evs0 /\
        ftype f = closeFrame /\ done = pre ++ [f])).

(** What every call keeps: the trace only grows, the session is at rest
    again, [closed] stays set and no timer is armed, a nil queue stays nil
    and no close frame goes out, a session not connected stays so and the
    node is not asked to disconnect it. *)
Definition step_ok (w w' : World) (evs : list Event) : Prop :=
  trace w' = trace w ++ evs /\
  idle w' /\
  (closed (sess w) = true ->
   (closed (sess w') = true /\ pingTimer (sess w') = pingTimer (sess w)) /\
   count is_timer_arm evs = 0%nat) /\
  (send (sess w) = None ->
   send (sess w') = None /\ count is_close_ws evs = 0%nat) /\
  (connected (sess w) = false ->
   connected (sess w') = false /\ count is_node_disconnect evs = 0%nat).

(** ** More ways to read a run *)

(** The messages written on the connection, in order. *)
Definition written (evs : list Event) : list (list byte) :=
  flat_map (fun e => match e with
                     | EvWrite _ message _ _ _ => [message]
                     | _ => []
                     end) evs.

Definition is_text (f : sentFrame) : Prop := ftype f = textFrame.

(** The next [n] writes on the connection all go through. *)
Definition writes_ok (w : World) (n : nat) : Prop :=
  forall i, (i < n)%nat -> fst (conn w (wcount w + i)) = WriteOk.

(** Whether the timer [s.pingTimer] points to has been armed and not
    stopped since.  A timer the field no longer points to is not seen. *)
Definition armed (s : Session) : bool :=
  match pingTimer s with
  | Some t => tactive t
  | None => false
  end.

(** Whether a first [Close] would find the queue full. *)
Definition overflows (s : Session) : bool :=
  negb (closed s) &&
  match send s with
  | Some c => chan_full c
  | None => false
  end.

(** What no run of the session's methods departs from: text messages are
    written with the mutex held, the close message without, the timer is
    armed for [pingInterval] with the mutex held, and no frame of unknown
    type is met. *)
Definition disciplined (e : Event) : Prop :=
  match e with
  | EvWrite _ _ _ locked _ => locked = true
  | EvCloseWS _ _ locked => locked = false
  | EvTimerArm d locked => d = pingInterval /\ locked = true
  | EvUnknownFrame _ => False
  | _ => True
  end.

(** What every call keeps, beyond [step_ok]: [connected] never rises, the
    node is asked to disconnect exactly when [connected] falls, and the
    trace is disciplined. *)
Definition step_more (w w' : World) (evs : list Event) : Prop :=
  trace w' = trace w ++ evs /\
  idle w' /\
  (connected (sess w) = false -> connected (sess w') = false) /\
  count is_node_disconnect evs
  = (if connected (sess w) && negb (connected (sess w'))
     then 1%nat else 0%nat) /\
  Forall disciplined evs.

(** ** metrics.Config *)

Module Metrics.

Record Config := mkConfig {
  Log : bool;
  LogInterval : Z;
  LogFormatter : string;
  HTTP : string;
  Host : string;
  Port : Z
}.

(** [Config{}]: every field at its zero value. *)
Definition NewConfig : Config :=
  mkConfig false 0 EmptyString EmptyString EmptyString 0.

Definition LogFormatterEnabled (c : Config) : bool :=
  negb (String.eqb (LogFormatter c) EmptyString).

Definition LogEnabled (c : Config) : bool :=
  Log c || LogFormatterEnabled c.

Definition HTTPEnabled (c : Config) : bool :=
  negb (String.eqb (HTTP c) EmptyString).

End Metrics.

(** * Proofs *)

Ltac unfold_go :=
  cbv [Send sendClose Disconnect Close sendFrame call_depth sendFrame_at
       sendFrame_body Disconnect_body Close_body timer_Stop bind ret read
       emit upd_sess Lock Unlock chan_close try_send time_Now
       addPing time_AfterFunc write ws_write CloseWS recv
       put_sess log stopped queue after_write drained option_map
       set_send set_closed set_connected set_mu set_pingTimer
       sess now wcount conn trace send closed connected mu pingTimer
       chclosed buf cap tdur tactive].

(** Split a world into its fields and the idle hypothesis into its parts. *)
Ltac split_world w :=
  destruct w as [[[[? ? ?]|] [] [] ? [[? ?]|]] ? ? ? ?];
  unfold idle, chan_ok; cbn [sess mu send chclosed buf cap closed connected];
  intros; repeat match goal with
                 | H : _ /\ _ |- _ => destruct H
                 end; subst; try discriminate.

Ltac run_go :=
  unfold_go;
  repeat match goal with
         | H : chan_full _ = _ |- _ => rewrite H
         | H : (_ <=? _)%nat = _ |- _ => rewrite H
         end;
  try (match goal with
       | |- context [chan_full ?c] => destruct (chan_full c) eqn:?
       end);
  unfold_go; rewrite <- ?app_assoc; cbn [app].

Section SendFrame.
Variables (frame : sentFrame) (w : World).
Hypothesis Hmu : mu (sess w) = false.

Lemma sendFrame_nil :
  send (sess w) = None -> sendFrame frame w = Ret tt w.
Proof. revert Hmu; split_world w; run_go; reflexivity. Qed.

Lemma sendFrame_room (c : Chan) :
  send (sess w) = Some c -> chclosed c = false -> chan_full c = false ->
  sendFrame frame w =
  Ret tt (put_sess (set_send (Some (chan_push c frame)) (sess w)) w).
Proof.
  revert Hmu; split_world w;
    match goal with H : Some _ = Some _ |- _ => injection H as <- end;
    cbn [chclosed] in *; subst; run_go; reflexivity.
Qed.

Lemma sendFrame_overflow (c : Chan) :
  send (sess w) = Some c -> chclosed c = false -> chan_full c = true ->
  sendFrame frame w =
  Disconnect "Write failed" CloseAbnormalClosure
    (log [EvChanClose] (put_sess (set_send None (sess w)) w)).
Proof.
  revert Hmu; split_world w;
    match goal with H : Some _ = Some _ |- _ => injection H as <- end;
    cbn [chclosed] in *; subst; run_go; reflexivity.
Qed.
End SendFrame.

Section CloseDisconnect.
Variables (reason : string) (code : Z) (w : World).
Hypothesis Hmu : mu (sess w) = false.

Lemma Close_closed :
  closed (sess w) = true ->
  Close reason code w = Ret tt (log [EvClose reason code] w).
Proof. revert Hmu; split_world w; run_go; reflexivity. Qed.

Lemma Close_open :
  closed (sess w) = false ->
  Close reason code w =
  (sendFrame (close_frame reason code) ;; timer_Stop)
    (put_sess (set_closed true (sess w)) (log [EvClose reason code] w)).
Proof. revert Hmu; split_world w; run_go; reflexivity. Qed.

Lemma Disconnect_unfold :
  Disconnect reason code w =
  (Close reason code ;;
   if connected (sess w) then emit EvNodeDisconnect else ret tt)
    (put_sess (set_connected false (sess w))
       (log [EvDisconnect reason code] w)).
Proof. revert Hmu; split_world w; run_go; reflexivity. Qed.
End CloseDisconnect.

(** The call depth is enough: a deeper knot computes the same. *)
Lemma sendFrame_at_depth (d : nat) (frame : sentFrame) (w : World) :
  sendFrame_at (S (S d)) frame w = sendFrame frame w.
Proof.
  destruct w as [[[[? ? []]|] [] [] [] [[? ?]|]] ? ? ? ?];
    cbn [sendFrame_at]; run_go; reflexivity.
Qed.

(** On no world at all do the three methods run out of call depth. *)
Lemma calls_within_depth (frame : sentFrame) (reason : string) (code : Z)
    (w : World) :
  sendFrame frame w <> OutOfFuel /\
  Close reason code w <> OutOfFuel /\
  Disconnect reason code w <> OutOfFuel.
Proof.
  destruct w as [[[[? ? []]|] [] [] [] [[? ?]|]] ? ? ? ?];
    repeat split; run_go; discriminate.
Qed.

Lemma count_app (p : Event -> bool) (a b : list Event) :
  count p (a ++ b) = (count p a + count p b)%nat.
Proof. unfold count. now rewrite filter_app, length_app. Qed.

Lemma not_full_room (c : Chan) (f : sentFrame) :
  chan_full c = false -> (List.length (buf c ++ [f]) <= cap c)%nat.
Proof.
  unfold chan_full. intros H%Nat.leb_gt. rewrite length_app. simpl. lia.
Qed.

Lemma step_ok_refl (w : World) : idle w -> step_ok w w [].
Proof.
  intros H. unfold step_ok. rewrite app_nil_r.
  repeat split; auto; try reflexivity; apply H.
Qed.

Lemma step_ok_trans (w1 w2 w3 : World) (e1 e2 : list Event) :
  step_ok w1 w2 e1 -> step_ok w2 w3 e2 -> step_ok w1 w3 (e1 ++ e2).
Proof.
  intros (T1 & I1 & C1 & N1 & D1) (T2 & I2 & C2 & N2 & D2).
  unfold step_ok. rewrite T2, T1, app_assoc, !count_app.
  split; [reflexivity|]. split; [assumption|].
  split; [|split]; intros H.
  - destruct (C1 H) as [[H1 P1] ->]. destruct (C2 H1) as [[-> ->] ->].
    now repeat split.
  - destruct (N1 H) as [H1 ->]. destruct (N2 H1) as [-> ->]. now split.
  - destruct (D1 H) as [H1 ->]. destruct (D2 H1) as [-> ->]. now split.
Qed.

Lemma known_push (b : list sentFrame) (f : sentFrame) :
  Forall known_frame b -> known_frame f -> Forall known_frame (b ++ [f]).
Proof. intros Hb Hf. apply Forall_app. split; [assumption|]. now constructor. Qed.

(** Name the world and the events a computed run has produced, then the
    side conditions on them. *)
Ltac give_run :=
  eexists; eexists; split; [reflexivity|];
  unfold step_ok;
  split; [first [reflexivity | symmetry; apply app_nil_r]|].

Ltac side_goals :=
  unfold idle, chan_ok;
  cbn [trace sess mu send closed connected pingTimer chclosed buf cap
       chan_push];
  repeat split; try reflexivity; try discriminate; try assumption;
  try match goal with
      | H : chan_full ?c = false |- _ => apply (not_full_room c _ H)
      | |- Forall known_frame (_ ++ _) =>
          apply known_push; [assumption | unfold known_frame; cbn; auto]
      | |- In _ _ => cbn [In]; tauto
      end.

Ltac finish_step := give_run; side_goals.

Lemma Send_ok (msg : list byte) (w : World) :
  idle w -> exists w' evs, Send msg w = Ret tt w' /\ step_ok w w' evs.
Proof.
  split_world w; run_go; finish_step.
Qed.

Lemma Close_ok (reason : string) (code : Z) (w : World) :
  idle w -> exists w' evs, Close reason code w = Ret tt w' /\ step_ok w w' evs.
Proof.
  split_world w; run_go; finish_step.
Qed.

Lemma Disconnect_ok (reason : string) (code : Z) (w : World) :
  idle w ->
  exists w' evs, Disconnect reason code w = Ret tt w' /\ step_ok w w' evs.
Proof.
  split_world w; run_go; finish_step.
Qed.

Lemma addPing_ok (w : World) :
  idle w -> exists w' evs, addPing w = Ret tt w' /\ step_ok w w' evs.
Proof.
  split_world w; run_go; finish_step.
Qed.

Lemma write_free (message : list byte) (deadline : Z) (w : World) :
  mu (sess w) = false ->
  write message deadline w =
  Ret (write_failed (fst (conn w (wcount w)))) (after_write message deadline w).
Proof.
  destruct w as [[? ? ? ? ?] ? ? ? ?]; cbn [sess mu]; intros ->.
  unfold_go. reflexivity.
Qed.

Lemma after_write_ok (message : list byte) (deadline : Z) (w : World) :
  idle w ->
  step_ok w (after_write message deadline w)
    [EvWrite (now w) message deadline true (fst (conn w (wcount w)))].
Proof.
  intros H. unfold step_ok, after_write, idle; simpl.
  repeat split; auto; apply H.
Qed.

Lemma sendPing_ok (w : World) :
  idle w -> exists w' evs, sendPing w = Ret tt w' /\ step_ok w w' evs.
Proof.
  intros H. unfold sendPing, newPingMessage, bind, time_Now, ret.
  rewrite write_free by apply H.
  pose proof (after_write_ok (toJSON (mkPing "ping" (Unix (now w))))
                (now w + Z.quot pingInterval 2) w H) as Hw.
  assert (Hi : idle (after_write (toJSON (mkPing "ping" (Unix (now w))))
                       (now w + Z.quot pingInterval 2) w)) by apply Hw.
  destruct (write_failed _).
  - destruct (Disconnect_ok "Ping failed" CloseAbnormalClosure _ Hi)
      as (w' & evs & -> & Hs).
    eexists; eexists; split; [reflexivity|]. eapply step_ok_trans; eassumption.
  - destruct (addPing_ok _ Hi) as (w' & evs & -> & Hs).
    eexists; eexists; split; [reflexivity|]. eapply step_ok_trans; eassumption.
Qed.

(** *** The writer loop, one iteration at a time *)

Section WriterStep.
Variables (fuel : nat) (w : World).

Lemma loop_nil :
  send (sess w) = None -> SendMessages_loop (S fuel) w = Block w.
Proof.
  intros H. cbn [SendMessages_loop]. unfold bind, recv. now rewrite H.
Qed.

Lemma loop_empty (c : Chan) :
  send (sess w) = Some c -> buf c = [] ->
  SendMessages_loop (S fuel) w =
  if chclosed c then Ret ExitQueueClosed w else Block w.
Proof.
  intros H E. cbn [SendMessages_loop]. unfold bind, recv.
  rewrite H, E. now destruct (chclosed c).
Qed.

Variables (c : Chan) (f : sentFrame) (b : list sentFrame).
Hypothesis Hsend : send (sess w) = Some c.
Hypothesis Hbuf : buf c = f :: b.

Lemma loop_text :
  mu (sess w) = false -> ftype f = textFrame ->
  SendMessages_loop (S fuel) w =
  if write_failed (fst (conn w (wcount w)))
  then Ret ExitWriteError
         (after_write (payload f) (now w + writeWait) (taken b c w))
  else SendMessages_loop fuel
         (after_write (payload f) (now w + writeWait) (taken b c w)).
Proof.
  intros Hmu Ht. cbn [SendMessages_loop]. unfold bind at 1. unfold recv.
  rewrite Hsend, Hbuf, Ht. cbn [Z.eqb textFrame].
  unfold bind, time_Now. cbn [now].
  rewrite write_free by exact Hmu.
  fold (taken b c w). unfold taken at 1 2. cbn [conn wcount put_sess].
  now destruct (write_failed _).
Qed.

Lemma loop_close :
  mu (sess w) = false -> ftype f = closeFrame ->
  SendMessages_loop (S fuel) w =
  Ret ExitCloseFrame
    (log [EvCloseWS (closeCode f) (closeReason f) false] (taken b c w)).
Proof.
  intros Hmu Ht. cbn [SendMessages_loop]. unfold bind at 1. unfold recv.
  rewrite Hsend, Hbuf, Ht. cbn [Z.eqb textFrame closeFrame].
  unfold CloseWS, bind, read, emit, ret, log, taken, put_sess, set_send.
  cbn [sess mu now wcount conn trace]. now rewrite Hmu.
Qed.
End WriterStep.

Lemma drained_drained (r1 r2 : list sentFrame) (s : Session) :
  drained r2 (drained r1 s) = drained r2 s.
Proof. destruct s as [[c|] ? ? ? ?]; reflexivity. Qed.

Lemma drained_self (s : Session) (c : Chan) :
  send s = Some c -> drained (buf c) s = s.
Proof. destruct s as [? ? ? ? ?]; cbn. intros ->. now destruct c. Qed.

Lemma drained_nil (r : list sentFrame) (s : Session) :
  send s = None -> drained r s = s.
Proof. destruct s as [? ? ? ? ?]; cbn. now intros ->. Qed.

Lemma loop_run (fuel : nat) :
  forall w : World,
    mu (sess w) = false ->
    Forall known_frame (queue w) ->
    (List.length (queue w) < fuel)%nat ->
    writer_outcome w (SendMessages_loop fuel w).
Proof.
  induction fuel as [|fuel IH]; intros w Hmu Hk Hlen; [lia|].
  destruct (send (sess w)) as [c|] eqn:Hs.
  2:{ rewrite loop_nil by exact Hs.
      exists w, [], [], []. rewrite app_nil_r, drained_nil by exact Hs.
      unfold queue. rewrite Hs. repeat split.
      left. repeat split; auto. discriminate. }
  assert (Hq : queue w = buf c) by (unfold queue; now rewrite Hs).
  rewrite Hq in Hk, Hlen.
  destruct (buf c) as [|f b] eqn:Hb.
  { rewrite (loop_empty fuel w c Hs Hb).
    exists w, [], [], []. rewrite app_nil_r, Hq.
    split; [reflexivity|]. split; [rewrite <- Hb; symmetry; now apply drained_self|].
    split; [reflexivity|].
    destruct (chclosed c) eqn:Hc.
    - right; left. repeat split; auto. now exists c.
    - left. repeat split; auto. intros c' E. congruence. }
  set (tk := taken b c w).
  assert (Hd : sess tk = drained b (sess w)).
  { unfold tk, taken, drained, put_sess. cbn [sess]. now rewrite Hs. }
  inversion Hk as [|? ? Hf Hkb]; subst.
  destruct Hf as [Ht|Ht].
  - rewrite (loop_text fuel w c f b Hs Hb Hmu Ht). fold tk.
    set (w1 := after_write (payload f) (now w + writeWait) tk).
    assert (Htr : trace w1 =
                  trace w ++ [EvWrite (now w) (payload f) (now w + writeWait)
                                true (fst (conn w (wcount w)))]) by reflexivity.
    destruct (write_failed (fst (conn w (wcount w)))) eqn:Hw.
    + exists w1, [EvWrite (now w) (payload f) (now w + writeWait) true
                   (fst (conn w (wcount w)))], [f], b.
      repeat split; auto.
      right; right; left. split; [reflexivity|].
      exists [], (EvWrite (now w) (payload f) (now w + writeWait) true
                    (fst (conn w (wcount w)))).
      repeat split; auto. eexists; split; [reflexivity|assumption].
    + assert (Hq1 : queue w1 = b).
      { unfold queue, w1, after_write. cbn [sess]. rewrite Hd.
        unfold drained. now rewrite Hs. }
      assert (Hg : good_write (EvWrite (now w) (payload f) (now w + writeWait)
                                 true (fst (conn w (wcount w))))).
      { repeat split. cbn. now destruct (fst (conn w (wcount w))). }
      destruct (IH w1) as (w' & evs & done & rest & T & Hse & Q & Hcase).
      { unfold w1, after_write. cbn [sess]. rewrite Hd.
        unfold drained, set_send. cbn [mu]. exact Hmu. }
      { now rewrite Hq1. }
      { rewrite Hq1. cbn in Hlen. lia. }
      exists w', (EvWrite (now w) (payload f) (now w + writeWait) true
                    (fst (conn w (wcount w))) :: evs), (f :: done), rest.
      split; [rewrite T, Htr, <- app_assoc; reflexivity|].
      split.
      { rewrite Hse. unfold w1, after_write. cbn [sess].
        rewrite Hd. apply drained_drained. }
      split; [rewrite Hq1 in Q; rewrite Hq, Q; reflexivity|].
      destruct Hcase as [(R & E & G & C)|[(R & E & G & C)|[(R & C)|(R & C)]]].
      * left. repeat split; auto. intros c' Ec.
        rewrite Hs in Ec. injection Ec as <-.
        apply (C (mkChan b (cap c) (chclosed c))).
        unfold w1, after_write. cbn [sess]. rewrite Hd.
        unfold drained. now rewrite Hs.
      * right; left. repeat split; auto.
        destruct C as (c' & Ec & Cc). exists c. split; [exact Hs|].
        unfold w1, after_write in Ec. cbn [sess] in Ec. rewrite Hd in Ec.
        unfold drained in Ec. rewrite Hs in Ec. cbn in Ec.
        injection Ec as <-. exact Cc.
      * right; right; left. split; [assumption|].
        destruct C as (evs0 & e & -> & G & F).
        exists (EvWrite (now w) (payload f) (now w + writeWait) true
                  (fst (conn w (wcount w))) :: evs0), e.
        repeat split; auto; apply F.
      * right; right; right. split; [assumption|].
        destruct C as (evs0 & pre & cf & -> & G & Tc & ->).
        exists (EvWrite (now w) (payload f) (now w + writeWait) true
                  (fst (conn w (wcount w))) :: evs0), (f :: pre), cf.
        repeat split; auto.
  - rewrite (loop_close fuel w c f b Hs Hb Hmu Ht). fold tk.
    exists (log [EvCloseWS (closeCode f) (closeReason f) false] tk),
      [EvCloseWS (closeCode f) (closeReason f) false], [f], b.
    repeat split; auto.
    right; right; right. split; [reflexivity|].
    exists [], [], f. repeat split; auto.
Qed.

(** *** The writer as one of the calls *)

Lemma count_none (p : Event -> bool) (evs : list Event) :
  Forall (fun e => p e = false) evs -> count p evs = 0%nat.
Proof.
  unfold count. induction 1 as [|e l He _ IH]; [reflexivity|].
  cbn. now rewrite He.
Qed.

Lemma writes_count (p : Event -> bool) (evs : list Event) :
  (forall a m d l r, p (EvWrite a m d l r) = false) ->
  Forall text_write evs -> count p evs = 0%nat.
Proof.
  intros Hp H. apply count_none. eapply Forall_impl; [|exact H].
  intros [] Hw; try contradiction. apply Hp.
Qed.

Lemma good_writes_text (evs : list Event) :
  Forall good_write evs -> Forall text_write evs.
Proof. apply Forall_impl. now intros e [H _]. Qed.

Lemma drained_idle (w w' : World) (done rest : list sentFrame) :
  idle w -> sess w' = drained rest (sess w) -> queue w = done ++ rest ->
  idle w'.
Proof.
  unfold idle, queue. intros [Hmu Hc] -> Hq.
  destruct (sess w) as [[c|] ? ? ? ?]; cbn in *; split; auto.
  destruct Hc as (Hcl & Hlen & Hcap & Hk). unfold chan_ok; cbn.
  rewrite Hq in Hlen, Hk. rewrite length_app in Hlen.
  apply Forall_app in Hk. repeat split; auto; try lia. apply Hk.
Qed.

Lemma drained_step (w w' : World) (evs : list Event)
    (done rest : list sentFrame) :
  idle w ->
  trace w' = trace w ++ evs ->
  sess w' = drained rest (sess w) ->
  queue w = done ++ rest ->
  count is_timer_arm evs = 0%nat ->
  count is_node_disconnect evs = 0%nat ->
  (done = [] -> count is_close_ws evs = 0%nat) ->
  step_ok w w' evs.
Proof.
  intros Hi Ht Hs Hq Ha Hn Hc. unfold step_ok.
  split; [assumption|]. split; [eapply drained_idle; eassumption|].
  rewrite Hs. unfold queue in Hq.
  destruct (sess w) as [[c|] ? ? ? ?]; cbn in *; repeat split; auto;
    try discriminate.
  apply Hc. now destruct done.
Qed.

Lemma writer_turn_ok (w : World) :
  idle w -> exists w' evs, writer_turn w = Ret tt w' /\ step_ok w w' evs.
Proof.
  intros Hi.
  assert (Hk : Forall known_frame (queue w)).
  { destruct Hi as [_ Hc]. unfold queue.
    destruct (send (sess w)); [apply Hc|constructor]. }
  destruct (loop_run (S (List.length (queue w))) w (proj1 Hi) Hk (Nat.lt_succ_diag_r _))
    as (w' & evs & done & rest & T & Hse & Q & Hcase).
  unfold writer_turn, SendMessages, bind.
  destruct Hcase as [(R & E & G & C)|[(R & E & G & C)|[(R & C)|(R & C)]]];
    rewrite R.
  - exists w', evs. split; [reflexivity|].
    apply good_writes_text in G.
    eapply drained_step; eauto; intros; now apply writes_count.
  - destruct C as (c & Ec & Cc). destruct Hi as [_ Hc].
    rewrite Ec in Hc. destruct Hc as [Hc _]. congruence.
  - destruct C as (evs0 & e & -> & G & F & _).
    assert (Hw : Forall text_write (evs0 ++ [e])).
    { apply Forall_app. split; [now apply good_writes_text|now constructor]. }
    assert (Hst : step_ok w w' (evs0 ++ [e])).
    { eapply drained_step; eauto; intros; now apply writes_count. }
    destruct (Disconnect_ok "Write Failed" CloseAbnormalClosure w')
      as (w2 & evs2 & -> & Hs2); [apply Hst|].
    exists w2, ((evs0 ++ [e]) ++ evs2). split; [reflexivity|].
    eapply step_ok_trans; eassumption.
  - destruct C as (evs0 & pre & f & -> & G & Tf & ->).
    apply good_writes_text in G.
    assert (Hst : step_ok w w'
                    (evs0 ++ [EvCloseWS (closeCode f) (closeReason f) false])).
    { eapply drained_step; eauto.
      - rewrite count_app, writes_count; auto.
      - rewrite count_app, writes_count; auto.
      - intros Hnil. now destruct pre. }
    destruct (Disconnect_ok "Write Failed" CloseAbnormalClosure w')
      as (w2 & evs2 & -> & Hs2); [apply Hst|].
    eexists; eexists. split; [reflexivity|].
    eapply step_ok_trans; eassumption.
Qed.

Lemma run_op_ok (o : Op) (w : World) :
  idle w -> exists w' evs, run_op o w = Ret tt w' /\ step_ok w w' evs.
Proof.
  destruct o; cbn [run_op].
  - apply Send_ok.
  - apply Close_ok.
  - apply Disconnect_ok.
  - apply addPing_ok.
  - apply sendPing_ok.
  - apply writer_turn_ok.
Qed.

Lemma run_ops_ok (ops : list Op) :
  forall w, idle w ->
            exists w' evs, run_ops ops w = Ret tt w' /\ step_ok w w' evs.
Proof.
  induction ops as [|o ops IH]; intros w Hi; cbn [run_ops].
  - exists w, []. split; [reflexivity|]. now apply step_ok_refl.
  - destruct (run_op_ok o w Hi) as (w1 & e1 & R1 & S1).
    destruct (IH w1) as (w2 & e2 & R2 & S2); [apply S1|].
    exists w2, (e1 ++ e2). unfold bind. rewrite R1.
    split; [assumption|]. eapply step_ok_trans; eassumption.
Qed.

(** ** Send and the overflow of the queue *)

Lemma idle_queue_bound (w : World) :
  idle w -> (List.length (queue w) <= 256)%nat.
Proof.
  unfold idle, queue, chan_ok. intros [_ H].
  destruct (send (sess w)); cbn; [|lia].
  destruct H as (_ & Hl & Hc & _). lia.
Qed.

Lemma Sends_nil (msgs : list (list byte)) (w : World) :
  mu (sess w) = false -> send (sess w) = None -> Sends msgs w = Ret tt w.
Proof.
  intros Hmu Hs. induction msgs as [|m ms IH]; [reflexivity|].
  cbn [Sends]. unfold bind, Send. now rewrite sendFrame_nil.
Qed.

(** One [Send] either logs nothing, or it is the overflow: the queue is nil
    from then on, and the channel was closed and [Disconnect] called with
    [CloseAbnormalClosure] once each. *)
Lemma Send_step (msg : list byte) (w : World) :
  idle w ->
  exists w' evs,
    Send msg w = Ret tt w' /\ trace w' = trace w ++ evs /\ idle w' /\
    match send (sess w) with
    | None => w' = w /\ evs = []
    | Some c =>
        if chan_full c
        then send (sess w') = None /\ closed (sess w') = true /\
             count is_chan_close evs = 1%nat /\
             count (is_disconnect_with CloseAbnormalClosure) evs = 1%nat /\
             count (is_close_with CloseAbnormalClosure) evs = 1%nat /\
             In (EvDisconnect "Write failed" CloseAbnormalClosure) evs
        else w' = put_sess (set_send (Some (chan_push c (text_frame msg)))
                              (sess w)) w /\
             evs = []
    end.
Proof.
  split_world w; run_go; give_run; side_goals.
Qed.

Lemma idle_world0 : idle world0.
Proof. unfold idle, chan_ok; cbn. repeat split; auto; lia. Qed.

Lemma idle_full_world : idle full_world.
Proof.
  unfold idle, chan_ok, full_world; cbn [sess mu send chclosed buf cap].
  rewrite repeat_length. repeat split; auto.
  apply Forall_forall. intros f Hf. apply repeat_spec in Hf. subst f.
  now left.
Qed.

Lemma full_world_reachable :
  run_ops (OpAddPing :: map OpSend (repeat [] 256)) connected_world
  = Ret tt full_world.
Proof. vm_compute. reflexivity. Qed.

Lemma closed_world_reachable :
  run_ops [OpClose "bye" CloseNormalClosure] world0 = Ret tt closed_world.
Proof. reflexivity. Qed.

(** [NewSession] leaves a session at rest whenever [Authenticate] does. *)
Lemma NewSession_idle (Authenticate : M bool) (w : World) :
  (forall v, sess v = new_session ->
             exists err v', Authenticate v = Ret err v' /\ idle v') ->
  exists err w', NewSession Authenticate w = Ret err w' /\ idle w'.
Proof.
  intros HA. unfold NewSession, bind, upd_sess.
  destruct (HA (mkWorld new_session (now w) (wcount w) (conn w) (trace w))
              eq_refl) as (err & v & -> & Hv).
  destruct (addPing_ok v Hv) as (v1 & e1 & -> & S1).
  exists err. destruct err.
  - destruct (Close_ok "Auth Error" CloseInternalServerErr v1) as
      (v2 & e2 & -> & S2); [apply S1|].
    exists v2. split; [reflexivity|apply S2].
  - exists v1. split; [reflexivity|apply S1].
Qed.

Lemma idle_closed_world : idle closed_world.
Proof.
  unfold idle, chan_ok; cbn. repeat split; auto; try lia.
  constructor; [now right|constructor].
Qed.

(** Any row of [Send] calls closes the channel, and calls [Disconnect] and
    [Close] with [CloseAbnormalClosure], at most once. *)
Lemma Sends_row (msgs : list (list byte)) :
  forall w : World,
    idle w ->
    exists w' evs,
      Sends msgs w = Ret tt w' /\ trace w' = trace w ++ evs /\ idle w' /\
      (count is_chan_close evs <= 1)%nat /\
      (count (is_disconnect_with CloseAbnormalClosure) evs <= 1)%nat /\
      (count (is_close_with CloseAbnormalClosure) evs <= 1)%nat.
Proof.
  induction msgs as [|msg msgs IH]; intros w Hi.
  - exists w, []. rewrite app_nil_r. repeat split; try apply Hi; cbn; lia.
  - destruct (Send_step msg w Hi) as (w1 & e1 & R & T & Hi1 & H).
    cbn [Sends]. unfold bind. rewrite R.
    assert (Hcase : e1 = [] \/
                    (send (sess w1) = None /\
                     count is_chan_close e1 = 1%nat /\
                     count (is_disconnect_with CloseAbnormalClosure) e1
                     = 1%nat /\
                     count (is_close_with CloseAbnormalClosure) e1
                     = 1%nat)).
    { destruct (send (sess w)) as [c|].
      - destruct (chan_full c); [right|left]; tauto.
      - left; tauto. }
    destruct Hcase as [->|(Hn & Hc & Hd & Hcl)].
    + destruct (IH w1 Hi1) as (w2 & e2 & R2 & T2 & Hi2 & C2 & D2 & L2).
      exists w2, e2. rewrite T2, T, app_nil_r.
      repeat split; try assumption; try apply Hi2.
    + exists w1, e1. rewrite Sends_nil by (apply Hi1 || assumption).
      repeat split; try assumption; try apply Hi1; lia.
Qed.

(** [write] takes the mutex and keeps it across the write on the socket;
    a [Send] that comes in meanwhile waits at its own [Lock]. *)
Lemma Send_waits_while_write_holds_mutex :
  Lock world0 = Ret tt writing_world /\
  write [x62%byte] writeWait world0
  = (o <- ws_write [x62%byte] writeWait ;; Unlock ;; ret (write_failed o))
      writing_world /\
  mu (sess writing_world) = true /\
  Send [x61%byte] writing_world = Block writing_world.
Proof. repeat split. Qed.

(** C1, amended. [Send] begins by taking the session mutex, and waits there,
    with nothing changed, for as long as another goroutine holds it
    ([write] holds it across a whole write on the socket).  With the mutex
    free, [Send] returns, whatever the payload: it does not wait on the
    queue, it does not panic, and it has no error to return.  When the
    queue of capacity 256 is full at the enqueue, the channel is closed and
    set to nil, [Disconnect] is called with [CloseAbnormalClosure] and the
    session ends up closed; the channel is closed once and that
    [Disconnect] is called once, in this call and in any row of [Send]
    calls.  The queue never holds more than 256 frames. *)
Theorem Send_waits_only_for_mutex_overflow_closes_once (w v : World) :
  idle w -> mu (sess v) = true ->
  (forall msg : list byte, Send msg v = Block v) /\
  (forall msg : list byte,
      exists w' evs,
        Send msg w = Ret tt w' /\ trace w' = trace w ++ evs /\ idle w' /\
        (List.length (queue w') <= 256)%nat /\
        match send (sess w) with
        | None => w' = w /\ evs = []
        | Some c =>
            if chan_full c
            then send (sess w') = None /\ closed (sess w') = true /\
                 count is_chan_close evs = 1%nat /\
                 count (is_disconnect_with CloseAbnormalClosure) evs = 1%nat /\
                 count (is_close_with CloseAbnormalClosure) evs = 1%nat /\
                 In (EvDisconnect "Write failed" CloseAbnormalClosure) evs
            else w' = put_sess (set_send (Some (chan_push c (text_frame msg)))
                                  (sess w)) w /\
                 evs = []
        end) /\
  (forall msgs : list (list byte),
      exists w' evs,
        Sends msgs w = Ret tt w' /\ trace w' = trace w ++ evs /\ idle w' /\
        (count is_chan_close evs <= 1)%nat /\
        (count (is_disconnect_with CloseAbnormalClosure) evs <= 1)%nat /\
        (count (is_close_with CloseAbnormalClosure) evs <= 1)%nat).
Proof.
  intros Hi Hv. split; [|split].
  - intros msg. unfold Send, sendFrame, call_depth. cbn [sendFrame_at].
    unfold sendFrame_body. unfold bind at 1. unfold Lock. now rewrite Hv.
  - intros msg. destruct (Send_step msg w Hi) as (w' & evs & R & T & Hi' & H).
    exists w', evs. repeat split; try assumption; try apply Hi'.
    now apply idle_queue_bound.
  - intros msgs. now apply Sends_row.
Qed.

Lemma Send_waits_only_for_mutex_overflow_closes_once_witness :
  idle full_world /\ mu (sess writing_world) = true /\
  Send [x61%byte] writing_world = Block writing_world /\
  exists w' evs,
    Send [x61%byte] full_world = Ret tt w' /\
    trace w' = trace full_world ++ evs /\
    send (sess w') = None /\ closed (sess w') = true /\
    count is_chan_close evs = 1%nat.
Proof.
  split; [exact idle_full_world|]. split; [reflexivity|].
  destruct (Send_waits_only_for_mutex_overflow_closes_once
              full_world writing_world idle_full_world eq_refl)
    as (Hb & Hs & _).
  split; [exact (Hb [x61%byte])|].
  destruct (Hs [x61%byte]) as (w' & evs & R & T & _ & _ & H).
  exists w', evs. vm_compute in H. tauto.
Defined.

(** ** Disconnect *)

Lemma Disconnect_step (reason : string) (code : Z) (w : World) :
  idle w ->
  exists w' evs,
    Disconnect reason code w = Ret tt w' /\ trace w' = trace w ++ evs /\
    idle w' /\ connected (sess w') = false /\
    count is_node_disconnect evs
    = (if connected (sess w) then 1%nat else 0%nat) /\
    In (EvClose reason code) evs.
Proof.
  split_world w; run_go; give_run; side_goals.
Qed.

(** C2. In any row of [Disconnect] calls on a session, the node is asked
    for the RPC disconnect once if [connected] was set when the row began
    and never otherwise; each call goes through [Close]; after the first
    one [connected] is false, so no later call asks again. *)
Theorem Disconnect_orders_rpc_at_most_once (w : World) :
  idle w ->
  forall calls : list (string * Z),
    exists w' evs,
      Disconnects calls w = Ret tt w' /\ trace w' = trace w ++ evs /\
      idle w' /\
      count is_node_disconnect evs
      = match calls with
        | [] => 0%nat
        | _ :: _ => if connected (sess w) then 1%nat else 0%nat
        end /\
      Forall (fun rc => In (EvClose (fst rc) (snd rc)) evs) calls /\
      (calls <> [] -> connected (sess w') = false).
Proof.
  intros Hi calls. revert w Hi.
  induction calls as [|[reason code] calls IH]; intros w Hi.
  - exists w, []. rewrite app_nil_r.
    repeat split; try apply Hi; auto. congruence.
  - destruct (Disconnect_step reason code w Hi)
      as (w1 & e1 & R & T & Hi1 & Hc & Hn & Hin).
    destruct (IH w1 Hi1) as (w2 & e2 & R2 & T2 & Hi2 & Hn2 & Hall & Hc2).
    exists w2, (e1 ++ e2). cbn [Disconnects]. unfold bind. rewrite R.
    split; [assumption|]. split; [now rewrite T2, T, app_assoc|].
    split; [assumption|]. split; [|split].
    + rewrite count_app, Hn, Hn2, Hc. destruct calls; lia.
    + constructor; [apply in_or_app; now left|].
      eapply Forall_impl; [|exact Hall].
      intros rc H. apply in_or_app. now right.
    + intros _. destruct calls as [|rc calls].
      * cbn in R2. injection R2 as <-. assumption.
      * apply Hc2. discriminate.
Qed.

Lemma Disconnect_orders_rpc_at_most_once_witness :
  idle full_world /\
  exists w' evs,
    Disconnects [("Read closed"%string, CloseNormalClosure);
                 ("Write Failed"%string, CloseAbnormalClosure)] full_world
    = Ret tt w' /\
    trace w' = trace full_world ++ evs /\
    count is_node_disconnect evs = 1%nat /\
    connected (sess w') = false.
Proof.
  split; [exact idle_full_world|].
  destruct (Disconnect_orders_rpc_at_most_once full_world idle_full_world
              [("Read closed"%string, CloseNormalClosure);
               ("Write Failed"%string, CloseAbnormalClosure)])
    as (w' & evs & R & T & _ & C & _ & D).
  exists w', evs. repeat split; try assumption.
  apply D. discriminate.
Defined.

(** ** The closed flag and the queue *)

(** [Send] does not read [closed]: on the session [Close] has just closed,
    a payload is appended behind the close frame. *)
Lemma Send_after_Close_still_enqueues :
  Close "bye" CloseNormalClosure world0 = Ret tt closed_world /\
  closed (sess closed_world) = true /\
  exists w',
    Send [x61%byte] closed_world = Ret tt w' /\
    queue w' = queue closed_world ++ [text_frame [x61%byte]] /\
    queue w' <> queue closed_world.
Proof.
  split; [reflexivity|]. split; [reflexivity|].
  eexists. split; [reflexivity|]. split; [reflexivity|].
  cbn. discriminate.
Qed.

(** C3, amended. Once [closed] is true, a later [Close] or [Disconnect]
    leaves the queue as it is: no second close frame is put on it.  [Send]
    is not gated by [closed]: while the channel is not nil and has room it
    appends the text frame; on a channel that is not nil and full it
    enqueues nothing, closes the channel and sets it to nil, so that the
    frames queued are dropped with it; on a nil channel it returns with
    nothing changed. *)
Theorem closed_stops_close_frames_only (w : World) :
  idle w -> closed (sess w) = true ->
  (forall reason code,
      Close reason code w = Ret tt (log [EvClose reason code] w)) /\
  (forall reason code,
      exists w', Disconnect reason code w = Ret tt w' /\
                 send (sess w') = send (sess w)) /\
  (forall msg c,
      send (sess w) = Some c -> chan_full c = false ->
      exists w', Send msg w = Ret tt w' /\
                 queue w' = queue w ++ [text_frame msg]) /\
  (forall msg, send (sess w) = None -> Send msg w = Ret tt w) /\
  (forall msg c,
      send (sess w) = Some c -> chan_full c = true ->
      exists w' evs,
        Send msg w = Ret tt w' /\ trace w' = trace w ++ evs /\
        send (sess w') = None /\ queue w' = [] /\
        count is_chan_close evs = 1%nat /\
        closed (sess w') = true).
Proof.
  intros Hi Hc. split; [|split; [|split; [|split]]].
  - intros reason code. apply Close_closed; [apply Hi|assumption].
  - intros reason code. revert Hi Hc.
    split_world w; run_go; eexists; split; reflexivity.
  - intros msg c Hs Hf. unfold Send.
    rewrite (sendFrame_room _ w (proj1 Hi) c Hs) by (try assumption;
      destruct Hi as [_ Hk]; rewrite Hs in Hk; apply Hk).
    eexists; split; [reflexivity|]. unfold queue. cbn. now rewrite Hs.
  - intros msg Hs. apply sendFrame_nil; [apply Hi|assumption].
  - intros msg c Hs Hf.
    destruct (Send_step msg w Hi) as (w' & evs & R & T & _ & H).
    rewrite Hs, Hf in H. destruct H as (Hn & Hcl & Hch & _).
    exists w', evs. repeat split; try assumption.
    unfold queue. now rewrite Hn.
Qed.

(** A closed session with a full queue comes about: [Close] on a fresh
    session, then 255 sends. *)
Lemma closed_and_full_reachable :
  exists w c,
    run_ops (OpClose "bye" CloseNormalClosure :: map OpSend (repeat [] 255))
      world0 = Ret tt w /\
    closed (sess w) = true /\ send (sess w) = Some c /\ chan_full c = true.
Proof.
  eexists; eexists. split; [vm_compute; reflexivity|].
  split; [reflexivity|]. split; [reflexivity|]. vm_compute. reflexivity.
Qed.

Lemma closed_stops_close_frames_only_witness :
  idle closed_world /\ closed (sess closed_world) = true /\
  Close "again" CloseGoingAway closed_world
  = Ret tt (log [EvClose "again" CloseGoingAway] closed_world).
Proof.
  split; [exact idle_closed_world|]. split; [reflexivity|].
  exact (proj1 (closed_stops_close_frames_only closed_world
                  idle_closed_world eq_refl) "again"%string CloseGoingAway).
Defined.

(** ** Close *)

Lemma Close_step (reason : string) (code : Z) (w : World) :
  idle w ->
  exists w' evs,
    Close reason code w = Ret tt w' /\ trace w' = trace w ++ evs /\
    idle w' /\ closed (sess w') = true /\
    (closed (sess w) = false ->
     pingTimer (sess w') = stopped (pingTimer (sess w)) /\
     (pingTimer (sess w) <> None -> In EvTimerStop evs) /\
     match send (sess w) with
     | None => send (sess w') = None
     | Some c =>
         if chan_full c then send (sess w') = None
         else send (sess w') = Some (chan_push c (close_frame reason code))
     end).
Proof.
  split_world w; run_go; give_run; side_goals;
    try (intros _; cbn [In]; tauto);
    try (let Hne := fresh in intros Hne; now contradiction Hne).
Qed.

(** On a full queue the first [Close] puts no close frame anywhere: the
    enqueue overflows, and the channel is closed and dropped. *)
Lemma Close_on_full_queue_enqueues_nothing :
  closed (sess full_world) = false /\
  exists w',
    Close "bye" CloseNormalClosure full_world = Ret tt w' /\
    closed (sess w') = true /\
    send (sess w') = None /\
    ~ In (close_frame "bye" CloseNormalClosure) (queue w').
Proof.
  split; [reflexivity|].
  exists (mkWorld
            (mkSession None true false false (Some (mkTimer pingInterval false)))
            0 0 (conn full_world)
            [EvTimerArm pingInterval true;
             EvClose "bye" CloseNormalClosure; EvChanClose;
             EvDisconnect "Write failed" CloseAbnormalClosure;
             EvClose "Write failed" CloseAbnormalClosure;
             EvNodeDisconnect; EvTimerStop]).
  split; [vm_compute; reflexivity|].
  split; [reflexivity|]. split; [reflexivity|]. cbn. tauto.
Qed.

(** C4, amended. The first [Close] on a session not yet closed sets
    [closed], stops the ping timer if there is one, and tries once to
    enqueue the close frame with the given reason and code: the frame is
    appended when the channel is not nil and has room, and no frame is
    enqueued when the channel is nil or full.  A [Close] on a closed
    session returns at once and changes nothing of the session, so a
    second [Close] leaves the session as the first left it. *)
Theorem Close_idempotent_enqueues_when_room
    (reason : string) (code : Z) (w : World) :
  idle w ->
  (closed (sess w) = false ->
   exists w' evs,
     Close reason code w = Ret tt w' /\ trace w' = trace w ++ evs /\
     closed (sess w') = true /\
     pingTimer (sess w') = stopped (pingTimer (sess w)) /\
     (pingTimer (sess w) <> None -> In EvTimerStop evs) /\
     match send (sess w) with
     | None => send (sess w') = None
     | Some c =>
         if chan_full c then send (sess w') = None
         else send (sess w') = Some (chan_push c (close_frame reason code))
     end) /\
  (closed (sess w) = true ->
   Close reason code w = Ret tt (log [EvClose reason code] w)) /\
  (forall reason2 code2,
      exists w1 w2,
        Close reason code w = Ret tt w1 /\
        Close reason2 code2 w1 = Ret tt w2 /\
        sess w2 = sess w1).
Proof.
  intros Hi.
  destruct (Close_step reason code w Hi) as (w1 & evs & R & T & Hi1 & Hc & H).
  split; [|split].
  - intros Ho. exists w1, evs. destruct (H Ho) as (Hp & Hs & Hq).
    repeat split; assumption.
  - intros Hcl. apply Close_closed; [apply Hi|assumption].
  - intros reason2 code2. exists w1, (log [EvClose reason2 code2] w1).
    split; [assumption|]. split; [|reflexivity].
    apply Close_closed; [apply Hi1|assumption].
Qed.

Lemma Close_idempotent_enqueues_when_room_witness :
  idle world0 /\
  exists w1 w2,
    Close "bye" CloseNormalClosure world0 = Ret tt w1 /\
    Close "again" CloseGoingAway w1 = Ret tt w2 /\
    sess w2 = sess w1.
Proof.
  split; [exact idle_world0|].
  exact (proj2 (proj2 (Close_idempotent_enqueues_when_room
                         "bye" CloseNormalClosure world0 idle_world0))
           "again"%string CloseGoingAway).
Defined.

(** ** The reader loop *)

Lemma expected_close_statuses (e : ReadError) :
  IsCloseError e expectedCloseStatuses = true <->
  exists code text,
    e = CloseError code text /\ (code = 1000 \/ code = 1001 \/ code = 1005).
Proof.
  split.
  - destruct e as [code text|text]; cbn; [|discriminate].
    intros H. exists code, text. split; [reflexivity|].
    unfold CloseNormalClosure, CloseGoingAway, CloseNoStatusReceived in H.
    rewrite !orb_true_iff, !Z.eqb_eq in H. intuition discriminate.
  - intros (code & text & -> & [->|[->| ->]]); reflexivity.
Qed.

(** C5. [ReadMessages] hands every message read to the node until the
    first read error, and there it leaves the loop through [Disconnect]:
    with [CloseNormalClosure] when the error is a close error whose status
    is 1000, 1001 or 1005, with [CloseAbnormalClosure] for every other
    error.  What the socket would have returned after the error is not
    read.  While no error comes the loop does not exit. *)
Theorem ReadMessages_maps_read_errors
    (HandleCommand : list byte -> M unit) (msgs : list (list byte))
    (e : ReadError) (rest : list ReadResult) (w : World) :
  ReadMessages HandleCommand (map ReadOk msgs ++ ReadErr e :: rest) w
  = (handle_all HandleCommand msgs ;;
     if IsCloseError e expectedCloseStatuses
     then Disconnect "Read closed" CloseNormalClosure
     else Disconnect "Read failed" CloseAbnormalClosure) w
  /\ (IsCloseError e expectedCloseStatuses = true <->
      exists code text,
        e = CloseError code text /\
        (code = 1000 \/ code = 1001 \/ code = 1005))
  /\ ReadMessages HandleCommand (map ReadOk msgs) w
     = (handle_all HandleCommand msgs ;; fun w' => Block w') w.
Proof.
  split; [|split; [apply expected_close_statuses|]]; revert w.
  - induction msgs as [|m ms IH]; intros w; cbn [map app ReadMessages handle_all].
    + unfold bind, ret. now destruct (IsCloseError e expectedCloseStatuses).
    + unfold bind at 1 2 3. destruct (HandleCommand m w); try reflexivity.
      apply IH.
  - induction msgs as [|m ms IH]; intros w; cbn [map ReadMessages handle_all].
    + reflexivity.
    + unfold bind at 1 2 3. destruct (HandleCommand m w); try reflexivity.
      apply IH.
Qed.

(** ** Ping *)

Lemma sendPing_unfold (w : World) :
  mu (sess w) = false ->
  sendPing w
  = (if write_failed (fst (conn w (wcount w)))
     then Disconnect "Ping failed" CloseAbnormalClosure
     else addPing)
      (after_write (toJSON (mkPing "ping" (now w / Second)))
         (now w + 1500000000) w).
Proof.
  intros Hmu. unfold sendPing, newPingMessage, bind, time_Now, ret.
  now rewrite write_free by exact Hmu.
Qed.

Lemma addPing_closed (w : World) :
  mu (sess w) = false -> closed (sess w) = true -> addPing w = Ret tt w.
Proof.
  destruct w as [[? ? ? ? ?] ? ? ? ?]; cbn [sess mu closed]; intros -> ->.
  reflexivity.
Qed.

Lemma addPing_open (w : World) :
  mu (sess w) = false -> closed (sess w) = false ->
  addPing w
  = Ret tt (log [EvTimerArm pingInterval true]
              (put_sess (set_pingTimer (Some (mkTimer pingInterval true))
                           (sess w)) w)).
Proof.
  destruct w as [[? ? ? ? ?] ? ? ? ?]; cbn [sess mu closed]; intros -> ->.
  reflexivity.
Qed.

(** The ping handler on a closed session whose write goes through: no
    timer is installed. *)
Lemma ping_on_closed_session_not_rearmed :
  closed (sess closed_world) = true /\
  fst (conn closed_world (wcount closed_world)) = WriteOk /\
  exists w',
    sendPing closed_world = Ret tt w' /\
    pingTimer (sess w') = None /\
    count is_timer_arm (trace w') = 0%nat.
Proof.
  split; [reflexivity|]. split; [reflexivity|].
  exists (after_write (toJSON (mkPing "ping" 0)) 1500000000 closed_world).
  split; [|split; reflexivity].
  rewrite sendPing_unfold by reflexivity. reflexivity.
Qed.

(** C6, amended. The ping handler writes
    [{"type":"ping","message":<unix seconds>}] to the connection, under the
    mutex and with the deadline 1.5 s (pingInterval/2) after now.  When the
    write fails it goes on as [Disconnect("Ping failed",
    CloseAbnormalClosure)].  When the write succeeds and the session is not
    closed, the timer is armed again for 3 s; when it succeeds and the
    session is closed, no timer is installed. *)
Theorem sendPing_writes_then_rearms_unless_closed (w : World) :
  idle w ->
  let ping := toJSON (mkPing "ping" (now w / Second)) in
  let w1 := after_write ping (now w + 1500000000) w in
  trace w1
  = trace w ++ [EvWrite (now w) ping (now w + 1500000000) true
                  (fst (conn w (wcount w)))] /\
  toJSON (mkPing "ping" 1700000000)
  = [x7b; x22; x74; x79; x70; x65; x22; x3a; x22; x70; x69; x6e; x67; x22;
     x2c; x22; x6d; x65; x73; x73; x61; x67; x65; x22; x3a;
     x31; x37; x30; x30; x30; x30; x30; x30; x30; x30; x7d]%byte /\
  (write_failed (fst (conn w (wcount w))) = true ->
   sendPing w = Disconnect "Ping failed" CloseAbnormalClosure w1) /\
  (write_failed (fst (conn w (wcount w))) = false ->
   closed (sess w) = false ->
   sendPing w
   = Ret tt (log [EvTimerArm 3000000000 true]
               (put_sess (set_pingTimer (Some (mkTimer 3000000000 true))
                            (sess w1)) w1))) /\
  (write_failed (fst (conn w (wcount w))) = false ->
   closed (sess w) = true ->
   sendPing w = Ret tt w1).
Proof.
  intros [Hmu _] ping w1.
  split; [reflexivity|]. split; [reflexivity|].
  rewrite (sendPing_unfold w Hmu). fold ping. fold w1.
  split; [|split].
  - now intros ->.
  - intros -> Hc. now apply addPing_open.
  - intros -> Hc. now apply addPing_closed.
Qed.

Lemma sendPing_writes_then_rearms_unless_closed_witness :
  idle world0 /\
  sendPing world0
  = Ret tt
      (mkWorld
         (mkSession (Some (make_chan 256)) false false false
            (Some (mkTimer 3000000000 true)))
         0 1 (conn world0)
         [EvWrite 0 (toJSON (mkPing "ping" 0)) 1500000000 true WriteOk;
          EvTimerArm 3000000000 true]).
Proof.
  split; [exact idle_world0|].
  exact (proj1 (proj2 (proj2 (proj2
           (sendPing_writes_then_rearms_unless_closed world0 idle_world0))))
           eq_refl eq_refl).
Defined.

(** C7. On a closed session [addPing] installs no timer, and whatever is
    called on the session afterwards (sends, closes, disconnects, ping
    handlers, the writer), [closed] stays true, no timer is armed and the
    timer field is not written.  [addPing] takes the mutex before it reads
    [closed] (it waits while the mutex is held) and arms the timer, when it
    does, with the mutex still held. *)
Theorem addPing_never_rearms_once_closed (w : World) :
  idle w -> closed (sess w) = true ->
  addPing w = Ret tt w /\
  (forall ops : list Op,
      exists w' evs,
        run_ops ops w = Ret tt w' /\ trace w' = trace w ++ evs /\
        closed (sess w') = true /\
        pingTimer (sess w') = pingTimer (sess w) /\
        count is_timer_arm evs = 0%nat) /\
  (forall v : World, mu (sess v) = true -> addPing v = Block v) /\
  (forall v : World,
      mu (sess v) = false -> closed (sess v) = false ->
      addPing v
      = Ret tt (log [EvTimerArm pingInterval true]
                  (put_sess (set_pingTimer (Some (mkTimer pingInterval true))
                               (sess v)) v))).
Proof.
  intros Hi Hc. split; [apply addPing_closed; [apply Hi|assumption]|].
  split; [|split].
  - intros ops. destruct (run_ops_ok ops w Hi) as (w' & evs & R & T & _ & C & _).
    exists w', evs. destruct (C Hc) as [[C1 C2] C3]. now repeat split.
  - intros v Hv. unfold addPing, bind, Lock. now rewrite Hv.
  - intros v. apply addPing_open.
Qed.

Lemma addPing_never_rearms_once_closed_witness :
  idle closed_world /\ closed (sess closed_world) = true /\
  exists w' evs,
    run_ops [OpSendPing; OpAddPing; OpSend [x61%byte]; OpWriter] closed_world
    = Ret tt w' /\
    trace w' = trace closed_world ++ evs /\
    closed (sess w') = true /\
    pingTimer (sess w') = pingTimer (sess closed_world) /\
    count is_timer_arm evs = 0%nat.
Proof.
  split; [exact idle_closed_world|]. split; [reflexivity|].
  exact (proj1 (proj2 (addPing_never_rearms_once_closed closed_world
                         idle_closed_world eq_refl))
           [OpSendPing; OpAddPing; OpSend [x61%byte]; OpWriter]).
Defined.

(** ** The writer loop *)

(** The return for a closed channel does return: were the closed channel
    still what [s.send] holds, the loop would write the text frames left
    in it and leave through [!ok]. *)
Lemma loop_returns_on_closed_channel (fuel : nat) (w : World) (c : Chan) :
  mu (sess w) = false -> send (sess w) = Some c -> chclosed c = true ->
  (forall f, In f (buf c) -> ftype f = textFrame) ->
  (forall i, (i < List.length (buf c))%nat ->
             fst (conn w (wcount w + i)) = WriteOk) ->
  (List.length (buf c) < fuel)%nat ->
  exists w', SendMessages_loop fuel w = Ret ExitQueueClosed w' /\ queue w' = [].
Proof.
  revert w c. induction fuel as [|fuel IH]; intros w c Hmu Hs Hc Ht Hw Hl;
    [lia|].
  destruct (buf c) as [|f b] eqn:Hb.
  - exists w. rewrite (loop_empty fuel w c Hs Hb), Hc.
    split; [reflexivity|]. unfold queue. now rewrite Hs.
  - rewrite (loop_text fuel w c f b Hs Hb Hmu (Ht f (or_introl eq_refl))).
    assert (H0 : fst (conn w (wcount w)) = WriteOk).
    { rewrite <- (Nat.add_0_r (wcount w)). apply Hw. cbn. lia. }
    rewrite H0. cbn [write_failed].
    apply (IH _ (mkChan b (cap c) (chclosed c))); try reflexivity;
      try assumption.
    + intros g Hg. apply Ht. now right.
    + intros i Hi. cbn [conn wcount after_write taken put_sess].
      replace (S (wcount w) + i)%nat with (wcount w + S i)%nat by lia.
      apply Hw. cbn in *. lia.
    + cbn in *. lia.
Qed.

(** C8, the code where it departs.  When a send finds the queue full, the
    channel is closed and, in the same step, [s.send] is set to nil.
    [SendMessages] reads [s.send] anew at every receive, so from then on it
    receives from a nil channel: it waits and does not return, on that
    world and after any further calls, and no close frame is passed to the
    connection.  The return the loop has for a closed channel is not
    reached. *)
Theorem writer_waits_after_queue_closure
    (msg : list byte) (w : World) (c : Chan) :
  idle w -> send (sess w) = Some c -> chan_full c = true ->
  exists w' evs,
    Send msg w = Ret tt w' /\ trace w' = trace w ++ evs /\
    count is_chan_close evs = 1%nat /\
    send (sess w') = None /\
    (forall fuel, SendMessages (S fuel) w' = Block w') /\
    (forall ops : list Op,
        exists w2 evs2,
          run_ops ops w' = Ret tt w2 /\ trace w2 = trace w' ++ evs2 /\
          count is_close_ws evs2 = 0%nat /\
          forall fuel, SendMessages (S fuel) w2 = Block w2).
Proof.
  intros Hi Hs Hf.
  destruct (Send_step msg w Hi) as (w' & evs & R & T & Hi' & H).
  rewrite Hs, Hf in H. destruct H as (Hn & _ & Hch & _).
  exists w', evs. repeat split; try assumption.
  - intros fuel. unfold SendMessages, bind. now rewrite loop_nil.
  - intros ops.
    destruct (run_ops_ok ops w' Hi') as (w2 & evs2 & R2 & T2 & _ & _ & N & _).
    destruct (N Hn) as [Hn2 Hw2].
    exists w2, evs2. repeat split; try assumption.
    intros fuel. unfold SendMessages, bind. now rewrite loop_nil.
Qed.

Lemma writer_waits_after_queue_closure_witness :
  idle full_world /\
  exists w' evs,
    Send [x61%byte] full_world = Ret tt w' /\
    trace w' = trace full_world ++ evs /\
    count is_chan_close evs = 1%nat /\
    send (sess w') = None /\
    SendMessages 300 w' = Block w'.
Proof.
  split; [exact idle_full_world|].
  destruct (writer_waits_after_queue_closure [x61%byte] full_world
              (mkChan (repeat (text_frame []) 256) 256 false)
              idle_full_world eq_refl)
    as (w' & evs & R & T & C & N & B & _); [vm_compute; reflexivity|].
  exists w', evs. repeat split; try assumption. exact (B 299%nat).
Defined.

(** ** Who holds the mutex at a write *)

Lemma text_write_locking (evs : list Event) :
  Forall text_write evs -> Forall writer_locking evs.
Proof. apply Forall_impl. intros [] H; try contradiction. apply H. Qed.

Lemma outcome_locking (w : World) (res : Res WriterExit) :
  writer_outcome w res ->
  exists w' evs,
    (res = Block w' \/ exists r, res = Ret r w') /\
    trace w' = trace w ++ evs /\ Forall writer_locking evs.
Proof.
  intros (w' & evs & done & rest & T & _ & _ & Hcase).
  exists w', evs.
  destruct Hcase as [(R & _ & G & _)|[(R & _ & G & _)|[(R & C)|(R & C)]]].
  - split; [now left|]. split; [assumption|].
    now apply text_write_locking, good_writes_text.
  - split; [right; eauto|]. split; [assumption|].
    now apply text_write_locking, good_writes_text.
  - destruct C as (evs0 & e & -> & G & F & _).
    split; [right; eauto|]. split; [assumption|].
    apply text_write_locking, Forall_app.
    split; [now apply good_writes_text|now constructor].
  - destruct C as (evs0 & pre & f & -> & G & _).
    split; [right; eauto|]. split; [assumption|].
    apply Forall_app. split.
    + now apply text_write_locking, good_writes_text.
    + now repeat constructor.
Qed.

(** The writer passes a close frame to the connection without the mutex. *)
Lemma close_frame_written_without_mutex :
  mu (sess closed_world) = false /\
  exists w',
    SendMessages_loop 1 closed_world = Ret ExitCloseFrame w' /\
    trace w'
    = trace closed_world ++ [EvCloseWS CloseNormalClosure "bye" false] /\
    ~ Forall under_mutex (trace w').
Proof.
  split; [reflexivity|]. eexists. split; [reflexivity|].
  split; [reflexivity|]. cbn. intros H.
  inversion H as [|? ? _ H1]; subst. inversion H1 as [|? ? H2 _]; subst.
  cbn in H2. discriminate.
Qed.

(** C9, amended. Text frames and ping frames go to the connection through
    [write], which holds the session mutex from before the write until
    after it and waits while somebody else holds it.  The close frame is
    passed to the connection by the writer loop through [utils.CloseWS]
    with the mutex not held. *)
Theorem text_and_ping_writes_hold_mutex (w : World) :
  mu (sess w) = false ->
  (forall message deadline,
      write message deadline w
      = Ret (write_failed (fst (conn w (wcount w))))
          (after_write message deadline w) /\
      mu (sess (after_write message deadline w)) = false /\
      trace (after_write message deadline w)
      = trace w ++ [EvWrite (now w) message deadline true
                      (fst (conn w (wcount w)))]) /\
  (forall v message deadline,
      mu (sess v) = true -> write message deadline v = Block v) /\
  (exists ping deadline,
      sendPing w
      = (if write_failed (fst (conn w (wcount w)))
         then Disconnect "Ping failed" CloseAbnormalClosure
         else addPing) (after_write ping deadline w)) /\
  (forall fuel,
      Forall known_frame (queue w) ->
      (List.length (queue w) < fuel)%nat ->
      exists w' evs,
        (SendMessages_loop fuel w = Block w' \/
         exists r, SendMessages_loop fuel w = Ret r w') /\
        trace w' = trace w ++ evs /\
        Forall writer_locking evs).
Proof.
  intros Hmu. split; [|split; [|split]].
  - intros message deadline. split; [now apply write_free|].
    split; [exact Hmu|reflexivity].
  - intros v message deadline Hv. unfold write, bind, Lock. now rewrite Hv.
  - eexists; eexists. now apply sendPing_unfold.
  - intros fuel Hk Hlen. now apply outcome_locking, loop_run.
Qed.

Lemma text_and_ping_writes_hold_mutex_witness :
  mu (sess world0) = false /\
  write [x61%byte] 5 world0
  = Ret false (after_write [x61%byte] 5 world0).
Proof.
  split; [reflexivity|].
  exact (proj1 (proj1 (text_and_ping_writes_hold_mutex world0 eq_refl)
                  [x61%byte] 5)).
Defined.

(** ** After the overflow *)

Lemma sendFrame_full_step (frame : sentFrame) (w : World) (c : Chan) :
  idle w -> send (sess w) = Some c -> chan_full c = true ->
  exists w' evs,
    sendFrame frame w = Ret tt w' /\ trace w' = trace w ++ evs /\
    idle w' /\ send (sess w') = None /\ closed (sess w') = true /\
    count is_close_ws evs = 0%nat /\
    (closed (sess w) = false ->
     In (EvClose "Write failed" CloseAbnormalClosure) evs).
Proof.
  split_world w;
    match goal with H : Some _ = Some _ |- _ => injection H as <- end;
    run_go; give_run; side_goals; intros _; cbn [In]; tauto.
Qed.

Lemma Close_nil_open (reason : string) (code : Z) (w : World) :
  mu (sess w) = false -> send (sess w) = None -> closed (sess w) = false ->
  Close reason code w
  = timer_Stop (put_sess (set_closed true (sess w))
                  (log [EvClose reason code] w)).
Proof.
  intros Hmu Hs Hc. rewrite Close_open by assumption.
  unfold bind. now rewrite sendFrame_nil.
Qed.

(** C10. When [sendFrame] finds the queue full it closes the channel, sets
    [s.send] to nil and goes on as [Disconnect("Write failed",
    CloseAbnormalClosure)] on that session.  The call returns with the
    channel nil and the session closed; the [Close] it makes enqueues
    nothing.  Whatever is called afterwards, the channel stays nil, every
    [sendFrame] (from [Send] or from [sendClose]) returns with the world
    unchanged, the writer loop only waits, and no close frame is ever
    passed to the connection.  A first [Close] on a session whose channel
    is nil sets [closed] and stops the timer, and that is all. *)
Theorem overflow_drops_every_later_frame
    (frame : sentFrame) (w : World) (c : Chan) :
  idle w -> send (sess w) = Some c -> chan_full c = true ->
  sendFrame frame w
  = Disconnect "Write failed" CloseAbnormalClosure
      (log [EvChanClose] (put_sess (set_send None (sess w)) w)) /\
  (exists w1 evs1,
      sendFrame frame w = Ret tt w1 /\ trace w1 = trace w ++ evs1 /\
      send (sess w1) = None /\ closed (sess w1) = true /\
      count is_close_ws evs1 = 0%nat /\
      (closed (sess w) = false ->
       In (EvClose "Write failed" CloseAbnormalClosure) evs1) /\
      forall ops : list Op,
        exists w2 evs2,
          run_ops ops w1 = Ret tt w2 /\ trace w2 = trace w1 ++ evs2 /\
          send (sess w2) = None /\ queue w2 = [] /\
          count is_close_ws evs2 = 0%nat /\
          (forall msg, Send msg w2 = Ret tt w2) /\
          (forall reason code, sendClose reason code w2 = Ret tt w2) /\
          (forall fuel, SendMessages_loop (S fuel) w2 = Block w2)) /\
  (forall v reason code,
      mu (sess v) = false -> send (sess v) = None ->
      closed (sess v) = false ->
      Close reason code v
      = timer_Stop (put_sess (set_closed true (sess v))
                      (log [EvClose reason code] v))).
Proof.
  intros Hi Hs Hf. split; [|split].
  - apply (sendFrame_overflow frame w (proj1 Hi) c Hs); [|exact Hf].
    destruct Hi as [_ Hc]. rewrite Hs in Hc. apply Hc.
  - destruct (sendFrame_full_step frame w c Hi Hs Hf)
      as (w1 & evs1 & R & T & Hi1 & Hn & Hc & Hw & Hin).
    exists w1, evs1. repeat split; try assumption.
    intros ops.
    destruct (run_ops_ok ops w1 Hi1) as (w2 & evs2 & R2 & T2 & Hi2 & _ & N & _).
    destruct (N Hn) as [Hn2 Hw2].
    exists w2, evs2. repeat split; try assumption.
    + unfold queue. now rewrite Hn2.
    + intros msg. apply sendFrame_nil; [apply Hi2|assumption].
    + intros reason code. apply sendFrame_nil; [apply Hi2|assumption].
    + intros fuel. now apply loop_nil.
  - intros v reason code. apply Close_nil_open.
Qed.

Lemma overflow_drops_every_later_frame_witness :
  idle full_world /\
  send (sess full_world)
  = Some (mkChan (repeat (text_frame []) 256) 256 false) /\
  chan_full (mkChan (repeat (text_frame []) 256) 256 false) = true /\
  sendFrame (text_frame [x61%byte]) full_world
  = Disconnect "Write failed" CloseAbnormalClosure
      (log [EvChanClose] (put_sess (set_send None (sess full_world))
                            full_world)).
Proof.
  split; [exact idle_full_world|]. split; [reflexivity|].
  split; [vm_compute; reflexivity|].
  exact (proj1 (overflow_drops_every_later_frame (text_frame [x61%byte])
                  full_world _ idle_full_world eq_refl eq_refl)).
Defined.

(** * More of the session *)

(** ** What every call keeps, continued *)

Ltac more_goals :=
  unfold step_more, armed, idle, chan_ok;
  cbn [trace sess mu send closed connected pingTimer chclosed buf cap
       chan_push tactive andb negb];
  repeat split; try reflexivity; try discriminate; try assumption;
  try match goal with
      | H : chan_full ?c = false |- _ => apply (not_full_room c _ H)
      | |- Forall known_frame (_ ++ _) =>
          apply known_push; [assumption | unfold known_frame; cbn; auto]
      | |- Forall disciplined _ =>
          repeat (constructor || reflexivity)
      | |- In _ _ => cbn [In]; tauto
      | |- _ -> _ => intuition congruence
      end.

Ltac finish_more :=
  eexists; eexists; split; [reflexivity|];
  unfold step_more;
  split; [first [reflexivity | symmetry; apply app_nil_r]|];
  more_goals.

Lemma Send_more (msg : list byte) (w : World) :
  idle w -> exists w' evs, Send msg w = Ret tt w' /\ step_more w w' evs.
Proof.
  split_world w; run_go; finish_more.
Qed.

Lemma Close_more (reason : string) (code : Z) (w : World) :
  idle w ->
  exists w' evs, Close reason code w = Ret tt w' /\ step_more w w' evs.
Proof.
  split_world w; run_go; finish_more.
Qed.

Lemma Disconnect_more (reason : string) (code : Z) (w : World) :
  idle w ->
  exists w' evs,
    Disconnect reason code w = Ret tt w' /\
    closed (sess w') = true /\ connected (sess w') = false /\
    step_more w w' evs.
Proof.
  split_world w; run_go; finish_more.
Qed.

Lemma addPing_more (w : World) :
  idle w -> exists w' evs, addPing w = Ret tt w' /\ step_more w w' evs.
Proof.
  split_world w; run_go; finish_more.
Qed.

Lemma step_more_trans (w1 w2 w3 : World) (e1 e2 : list Event) :
  step_more w1 w2 e1 -> step_more w2 w3 e2 -> step_more w1 w3 (e1 ++ e2).
Proof.
  intros (T1 & I1 & M1 & N1 & F1) (T2 & I2 & M2 & N2 & F2).
  unfold step_more. rewrite T2, T1, app_assoc, count_app, N1, N2.
  split; [reflexivity|]. split; [assumption|].
  split; [auto|]. split; [|now apply Forall_app].
  revert M1 M2.
  destruct (connected (sess w1)), (connected (sess w2)),
    (connected (sess w3)); cbn; intros M1 M2; try reflexivity;
    try (specialize (M1 eq_refl); discriminate);
    try (specialize (M2 eq_refl); discriminate).
Qed.

Lemma step_more_refl (w : World) : idle w -> step_more w w [].
Proof.
  intros H. unfold step_more. rewrite app_nil_r, andb_negb_r.
  repeat split; auto; apply H.
Qed.

Lemma after_write_more (message : list byte) (deadline : Z) (w : World) :
  idle w ->
  step_more w (after_write message deadline w)
    [EvWrite (now w) message deadline true (fst (conn w (wcount w)))].
Proof.
  intros H. unfold step_more, after_write, idle; cbn [sess trace].
  rewrite andb_negb_r.
  repeat split; auto; try apply H. now repeat constructor.
Qed.

Lemma sendPing_more (w : World) :
  idle w -> exists w' evs, sendPing w = Ret tt w' /\ step_more w w' evs.
Proof.
  intros H. rewrite sendPing_unfold by apply H.
  pose proof (after_write_more (toJSON (mkPing "ping" (now w / Second)))
                (now w + 1500000000) w H) as Hw.
  assert (Hi : idle (after_write (toJSON (mkPing "ping" (now w / Second)))
                       (now w + 1500000000) w)) by apply Hw.
  destruct (write_failed _).
  - destruct (Disconnect_more "Ping failed" CloseAbnormalClosure _ Hi)
      as (w' & evs & -> & _ & _ & Hs).
    eexists; eexists; split; [reflexivity|].
    eapply step_more_trans; eassumption.
  - destruct (addPing_more _ Hi) as (w' & evs & -> & Hs).
    eexists; eexists; split; [reflexivity|].
    eapply step_more_trans; eassumption.
Qed.

Lemma text_write_disciplined (evs : list Event) :
  Forall text_write evs -> Forall disciplined evs.
Proof. apply Forall_impl. intros [] H; try contradiction. apply H. Qed.

Lemma drained_more (w w' : World) (evs : list Event)
    (done rest : list sentFrame) :
  idle w ->
  trace w' = trace w ++ evs ->
  sess w' = drained rest (sess w) ->
  queue w = done ++ rest ->
  count is_node_disconnect evs = 0%nat ->
  Forall disciplined evs ->
  step_more w w' evs.
Proof.
  intros Hi Ht Hs Hq Hn Hd. unfold step_more.
  split; [assumption|]. split; [eapply drained_idle; eassumption|].
  rewrite Hs, Hn.
  destruct (sess w) as [[c|] ? [] ? ?]; cbn; repeat split; auto.
Qed.

(** The writer loop alone, on a session at rest: it waits or returns, and
    never through the queue-closed or the unknown-frame branch. *)
Lemma loop_more (fuel : nat) (w : World) :
  idle w -> (List.length (queue w) < fuel)%nat ->
  exists w' evs,
    step_more w w' evs /\
    closed (sess w') = closed (sess w) /\
    connected (sess w') = connected (sess w) /\
    ((SendMessages_loop fuel w = Block w' /\ queue w' = []) \/
     SendMessages_loop fuel w = Ret ExitWriteError w' \/
     SendMessages_loop fuel w = Ret ExitCloseFrame w').
Proof.
  intros Hi Hlen.
  assert (Hk : Forall known_frame (queue w)).
  { destruct Hi as [_ Hc]. unfold queue.
    destruct (send (sess w)); [apply Hc|constructor]. }
  destruct (loop_run fuel w (proj1 Hi) Hk Hlen)
    as (w' & evs & done & rest & T & Hse & Q & Hcase).
  exists w', evs.
  assert (Hcc : closed (sess w') = closed (sess w) /\
                connected (sess w') = connected (sess w)).
  { rewrite Hse. destruct (sess w) as [[c|] ? ? ? ?]; now cbn. }
  destruct Hcase as [(R & E & G & C)|[(R & E & G & C)|[(R & C)|(R & C)]]].
  - apply good_writes_text in G.
    split; [|split; [apply Hcc|split; [apply Hcc|]]].
    + eapply drained_more; eauto.
      * now apply writes_count.
      * now apply text_write_disciplined.
    + left. split; [assumption|]. unfold queue. rewrite Hse, E.
      destruct (sess w) as [[c|] ? ? ? ?]; reflexivity.
  - destruct C as (c & Ec & Cc). destruct Hi as [_ Hc].
    rewrite Ec in Hc. destruct Hc as [Hc _]. congruence.
  - destruct C as (evs0 & e & -> & G & F & _).
    assert (Hw : Forall text_write (evs0 ++ [e])).
    { apply Forall_app. split; [now apply good_writes_text|now constructor]. }
    split; [|split; [apply Hcc|split; [apply Hcc|]]].
    + eapply drained_more; eauto.
      * now apply writes_count.
      * now apply text_write_disciplined.
    + right; now left.
  - destruct C as (evs0 & pre & f & -> & G & Tf & ->).
    apply good_writes_text in G.
    split; [|split; [apply Hcc|split; [apply Hcc|]]].
    + eapply drained_more; eauto.
      * rewrite count_app, writes_count; auto.
      * apply Forall_app. split; [now apply text_write_disciplined|].
        now repeat constructor.
    + right; now right.
Qed.

Lemma writer_turn_more (w : World) :
  idle w -> exists w' evs, writer_turn w = Ret tt w' /\ step_more w w' evs.
Proof.
  intros Hi.
  destruct (loop_more (S (List.length (queue w))) w Hi (Nat.lt_succ_diag_r _))
    as (w' & evs & Hs & _ & _ & [[R _]|[R|R]]);
    unfold writer_turn, SendMessages, bind; rewrite R.
  - now exists w', evs.
  - destruct (Disconnect_more "Write Failed" CloseAbnormalClosure w')
      as (w2 & evs2 & -> & _ & _ & Hs2); [apply Hs|].
    eexists; eexists. split; [reflexivity|].
    eapply step_more_trans; eassumption.
  - destruct (Disconnect_more "Write Failed" CloseAbnormalClosure w')
      as (w2 & evs2 & -> & _ & _ & Hs2); [apply Hs|].
    eexists; eexists. split; [reflexivity|].
    eapply step_more_trans; eassumption.
Qed.

Lemma run_op_more (o : Op) (w : World) :
  idle w -> exists w' evs, run_op o w = Ret tt w' /\ step_more w w' evs.
Proof.
  destruct o; cbn [run_op].
  - apply Send_more.
  - apply Close_more.
  - intros Hi. destruct (Disconnect_more reason code w Hi)
      as (w' & evs & R & _ & _ & Hs). now exists w', evs.
  - apply addPing_more.
  - apply sendPing_more.
  - apply writer_turn_more.
Qed.

Lemma run_ops_more (ops : list Op) :
  forall w, idle w ->
            exists w' evs, run_ops ops w = Ret tt w' /\ step_more w w' evs.
Proof.
  induction ops as [|o ops IH]; intros w Hi; cbn [run_ops].
  - exists w, []. split; [reflexivity|]. now apply step_more_refl.
  - destruct (run_op_more o w Hi) as (w1 & e1 & R1 & S1).
    destruct (IH w1) as (w2 & e2 & R2 & S2); [apply S1|].
    exists w2, (e1 ++ e2). unfold bind. rewrite R1.
    split; [assumption|]. eapply step_more_trans; eassumption.
Qed.

(** ** Any run of calls *)

Lemma idle_connected_world : idle connected_world.
Proof. unfold idle, chan_ok; cbn. repeat split; auto; lia. Qed.

(** X1. No run of sends, closes, disconnects, ping calls and writer turns
    on a session at rest panics (a channel closed twice, a send on a closed
    channel, a free mutex unlocked) or waits on the session's own mutex:
    the run returns, the mutex is free again, the channel is nil or open,
    and the queue holds at most 256 frames of the two known types. *)
Theorem runs_return_at_rest (w : World) (ops : list Op) :
  idle w ->
  exists w' evs,
    run_ops ops w = Ret tt w' /\ trace w' = trace w ++ evs /\
    idle w' /\ (List.length (queue w') <= 256)%nat /\
    Forall known_frame (queue w').
Proof.
  intros Hi. destruct (run_ops_ok ops w Hi) as (w' & evs & R & T & Hi' & _).
  exists w', evs. repeat split; try assumption; try apply Hi'.
  - now apply idle_queue_bound.
  - destruct Hi' as [_ Hc]. unfold queue.
    destruct (send (sess w')); [apply Hc|constructor].
Qed.

Lemma runs_return_at_rest_witness :
  idle full_world /\
  exists w' evs,
    run_ops [OpSend [x61%byte]; OpClose "bye" CloseNormalClosure; OpWriter;
             OpSendPing; OpDisconnect "bye" CloseGoingAway] full_world
    = Ret tt w' /\
    trace w' = trace full_world ++ evs /\
    idle w' /\ (List.length (queue w') <= 256)%nat /\
    Forall known_frame (queue w').
Proof.
  split; [exact idle_full_world|].
  exact (runs_return_at_rest full_world _ idle_full_world).
Defined.

(** X2. Over any run of calls the node is asked for the RPC disconnect
    exactly when [connected] goes from true to false, so at most once, and
    never on a session that was not connected; [connected] is never set by
    the session itself. *)
Theorem rpc_disconnect_when_connected_falls (w : World) (ops : list Op) :
  idle w ->
  exists w' evs,
    run_ops ops w = Ret tt w' /\ trace w' = trace w ++ evs /\
    count is_node_disconnect evs
    = (if connected (sess w) && negb (connected (sess w'))
       then 1%nat else 0%nat) /\
    (count is_node_disconnect evs <= 1)%nat /\
    (connected (sess w) = false ->
     connected (sess w') = false /\ count is_node_disconnect evs = 0%nat).
Proof.
  intros Hi.
  destruct (run_ops_more ops w Hi) as (w' & evs & R & T & _ & M & N & _).
  exists w', evs. rewrite N.
  split; [assumption|]. split; [assumption|]. split; [reflexivity|].
  split; [destruct (_ && _); lia|].
  intros H. split; [auto|]. now rewrite H.
Qed.

Lemma rpc_disconnect_when_connected_falls_witness :
  idle full_world /\
  exists w' evs,
    run_ops [OpSend [x61%byte]; OpWriter; OpSendPing;
             OpDisconnect "bye" CloseGoingAway] full_world
    = Ret tt w' /\
    trace w' = trace full_world ++ evs /\
    (count is_node_disconnect evs <= 1)%nat.
Proof.
  split; [exact idle_full_world|].
  destruct (rpc_disconnect_when_connected_falls full_world
              [OpSend [x61%byte]; OpWriter; OpSendPing;
               OpDisconnect "bye" CloseGoingAway] idle_full_world)
    as (w' & evs & R & T & _ & L & _).
  exists w', evs. split; [exact R|]. split; [exact T|exact L].
Defined.

(** X4. In any run of calls every text message is written with the session
    mutex held, every close message is passed to the connection with the
    mutex not held, every timer is armed for [pingInterval] with the mutex
    held, and the writer never meets a frame of unknown type. *)
Theorem runs_are_disciplined (w : World) (ops : list Op) :
  idle w ->
  exists w' evs,
    run_ops ops w = Ret tt w' /\ trace w' = trace w ++ evs /\
    Forall disciplined evs.
Proof.
  intros Hi.
  destruct (run_ops_more ops w Hi) as (w' & evs & R & T & _ & _ & _ & F).
  now exists w', evs.
Qed.

Lemma runs_are_disciplined_witness :
  idle connected_world /\
  exists w' evs,
    run_ops [OpAddPing; OpSend [x61%byte]; OpWriter; OpSendPing;
             OpClose "bye" CloseNormalClosure; OpWriter] connected_world
    = Ret tt w' /\
    trace w' = trace connected_world ++ evs /\
    Forall disciplined evs.
Proof.
  split; [exact idle_connected_world|].
  exact (runs_are_disciplined connected_world _ idle_connected_world).
Defined.

(** ** From Send to the connection *)

Lemma Sends_append (msgs : list (list byte)) :
  forall (w : World) (c : Chan),
    mu (sess w) = false -> send (sess w) = Some c -> chclosed c = false ->
    (List.length (buf c) + List.length msgs <= cap c)%nat ->
    Sends msgs w
    = Ret tt (put_sess
                (set_send
                   (Some (mkChan (buf c ++ map text_frame msgs) (cap c) false))
                   (sess w)) w).
Proof.
  induction msgs as [|m ms IH]; intros w c Hmu Hs Hc Hl.
  - cbn [Sends map]. rewrite app_nil_r. unfold ret, put_sess, set_send.
    destruct w as [[? ? ? ? ?] ? ? ? ?]; cbn in *. subst.
    now destruct c; cbn in *; subst.
  - cbn [Sends]. unfold bind, Send.
    assert (Hf : chan_full c = false).
    { unfold chan_full. apply Nat.leb_gt. cbn in Hl. lia. }
    rewrite (sendFrame_room (text_frame m) w Hmu c Hs Hc Hf).
    rewrite (IH _ (chan_push c (text_frame m))); try reflexivity;
      try assumption.
    + unfold put_sess, set_send, chan_push. cbn.
      now rewrite <- app_assoc.
    + cbn. rewrite length_app. cbn in *. lia.
Qed.

(** X5. While the channel has room for them, the payloads passed to [Send]
    are appended to the queue as text frames in the order of the calls;
    nothing else of the session changes and nothing is logged. *)
Theorem Sends_append_in_order
    (msgs : list (list byte)) (w : World) (c : Chan) :
  mu (sess w) = false -> send (sess w) = Some c -> chclosed c = false ->
  (List.length (buf c) + List.length msgs <= cap c)%nat ->
  exists w',
    Sends msgs w = Ret tt w' /\
    queue w' = queue w ++ map text_frame msgs /\
    w' = put_sess
           (set_send
              (Some (mkChan (buf c ++ map text_frame msgs) (cap c) false))
              (sess w)) w.
Proof.
  intros Hmu Hs Hc Hl. eexists.
  split; [exact (Sends_append msgs w c Hmu Hs Hc Hl)|].
  split; [|reflexivity]. unfold queue. cbn. now rewrite Hs.
Qed.

Lemma Sends_append_in_order_witness :
  mu (sess world0) = false /\
  exists w',
    Sends [[x61%byte]; [x62%byte]] world0 = Ret tt w' /\
    queue w' = [text_frame [x61%byte]; text_frame [x62%byte]].
Proof.
  split; [reflexivity|].
  destruct (Sends_append_in_order [[x61%byte]; [x62%byte]] world0
              (make_chan 256) eq_refl eq_refl eq_refl)
    as (w' & R & Q & _); [cbn; lia|].
  exists w'. split; [exact R|exact Q].
Defined.

Lemma writes_ok_next (w w1 : World) (n : nat) :
  writes_ok w (S n) -> conn w1 = conn w -> wcount w1 = S (wcount w) ->
  writes_ok w1 n.
Proof.
  intros H Hc Hn i Hi. rewrite Hc, Hn.
  replace (S (wcount w) + i)%nat with (wcount w + S i)%nat by lia.
  apply H. lia.
Qed.

Lemma loop_in_order (texts tail : list sentFrame) :
  forall (fuel : nat) (w : World) (c : Chan),
    mu (sess w) = false -> send (sess w) = Some c ->
    buf c = texts ++ tail -> Forall is_text texts ->
    match tail with [] => True | f :: _ => ftype f = closeFrame end ->
    writes_ok w (List.length texts) ->
    (List.length (buf c) < fuel)%nat ->
    exists w' evs,
      trace w' = trace w ++ evs /\
      written evs = map payload texts /\
      wcount w' = (wcount w + List.length texts)%nat /\
      match tail with
      | [] =>
          queue w' = [] /\ count is_close_ws evs = 0%nat /\
          SendMessages_loop fuel w
          = (if chclosed c then Ret ExitQueueClosed w' else Block w')
      | cf :: rest =>
          queue w' = rest /\
          (exists evs0,
              evs = evs0 ++ [EvCloseWS (closeCode cf) (closeReason cf) false]
              /\ count is_close_ws evs0 = 0%nat) /\
          SendMessages_loop fuel w = Ret ExitCloseFrame w'
      end.
Proof.
  induction texts as [|t ts IH]; intros fuel w c Hmu Hs Hb Ht Htail Hw Hl;
    (destruct fuel as [|fuel]; [lia|]).
  - cbn [app] in Hb. destruct tail as [|cf rest].
    + exists w, []. rewrite app_nil_r, Nat.add_0_r.
      repeat split; try reflexivity.
      * unfold queue. now rewrite Hs.
      * apply (loop_empty fuel w c Hs Hb).
    + exists (log [EvCloseWS (closeCode cf) (closeReason cf) false]
                (taken rest c w)),
        [EvCloseWS (closeCode cf) (closeReason cf) false].
      cbn [List.length]. rewrite Nat.add_0_r. repeat split; try reflexivity.
      * now exists [].
      * apply (loop_close fuel w c cf rest Hs Hb Hmu Htail).
  - cbn [app] in Hb. inversion Ht as [|? ? Ht1 Ht2]; subst.
    rewrite (loop_text fuel w c t (ts ++ tail) Hs Hb Hmu Ht1).
    assert (H0 : fst (conn w (wcount w)) = WriteOk).
    { rewrite <- (Nat.add_0_r (wcount w)). apply Hw. cbn. lia. }
    rewrite H0. cbn [write_failed].
    set (w1 := after_write (payload t) (now w + writeWait)
                 (taken (ts ++ tail) c w)).
    destruct (IH fuel w1 (mkChan (ts ++ tail) (cap c) (chclosed c)))
      as (w' & evs & T & Wr & Wc & Hcase); try reflexivity; try assumption.
    { eapply writes_ok_next; [exact Hw|reflexivity|reflexivity]. }
    { cbn. rewrite Hb in Hl. cbn in Hl. lia. }
    exists w', (EvWrite (now w) (payload t) (now w + writeWait) true WriteOk
                  :: evs).
    split; [rewrite T; unfold w1, after_write, taken, put_sess; cbn;
            now rewrite H0, <- app_assoc|].
    split; [cbn [map]; rewrite <- Wr; reflexivity|].
    split; [rewrite Wc; cbn; lia|].
    destruct tail as [|cf rest].
    + destruct Hcase as (Q & C & R). repeat split; assumption.
    + destruct Hcase as (Q & (evs0 & -> & C) & R).
      repeat split; try assumption.
      now exists (EvWrite (now w) (payload t) (now w + writeWait) true WriteOk
                    :: evs0).
Qed.

(** X6. The writer loop writes the payloads of the text frames at the head
    of the queue, byte for byte and in queue order, as long as the writes
    go through.  At a close frame it passes the code and reason to the
    connection once, returns, and leaves every frame behind the close frame
    in the queue, unwritten.  On a queue of text frames only it drains the
    queue and waits (or returns, on a closed channel). *)
Theorem writer_delivers_in_order
    (texts tail : list sentFrame) (fuel : nat) (w : World) (c : Chan) :
  mu (sess w) = false -> send (sess w) = Some c ->
  buf c = texts ++ tail -> Forall is_text texts ->
  match tail with [] => True | f :: _ => ftype f = closeFrame end ->
  writes_ok w (List.length texts) ->
  (List.length (buf c) < fuel)%nat ->
  exists w' evs,
    trace w' = trace w ++ evs /\
    written evs = map payload texts /\
    wcount w' = (wcount w + List.length texts)%nat /\
    match tail with
    | [] =>
        queue w' = [] /\ count is_close_ws evs = 0%nat /\
        SendMessages_loop fuel w
        = (if chclosed c then Ret ExitQueueClosed w' else Block w')
    | cf :: rest =>
        queue w' = rest /\
        (exists evs0,
            evs = evs0 ++ [EvCloseWS (closeCode cf) (closeReason cf) false]
            /\ count is_close_ws evs0 = 0%nat) /\
        SendMessages_loop fuel w = Ret ExitCloseFrame w'
    end.
Proof. apply loop_in_order. Qed.

Lemma writer_delivers_in_order_witness :
  exists w' evs,
    trace w' = trace closed_world ++ evs /\
    written evs = [] /\
    queue w' = [text_frame [x62%byte]] /\
    SendMessages_loop 3
      (put_sess
         (set_send
            (Some (mkChan [close_frame "bye" CloseNormalClosure;
                           text_frame [x62%byte]] 256 false))
            (sess closed_world)) closed_world)
    = Ret ExitCloseFrame w'.
Proof.
  destruct (writer_delivers_in_order []
              [close_frame "bye" CloseNormalClosure; text_frame [x62%byte]] 3
              (put_sess
                 (set_send
                    (Some (mkChan [close_frame "bye" CloseNormalClosure;
                                   text_frame [x62%byte]] 256 false))
                    (sess closed_world)) closed_world)
              (mkChan [close_frame "bye" CloseNormalClosure;
                       text_frame [x62%byte]] 256 false)
              eq_refl eq_refl eq_refl (Forall_nil _) eq_refl)
    as (w' & evs & T & Wr & _ & Q & _ & R).
  - intros i Hi. cbn in Hi. lia.
  - cbn. lia.
  - exists w', evs. repeat split; assumption.
Defined.

(** X7. Round trip from [Send] to the connection: on a session at rest
    whose queue holds text frames only, payloads sent while the channel has
    room are written to the connection byte-identical and in the order of
    the calls, behind the payloads queued before them, when the writes go
    through; the writer is then left waiting on the drained queue. *)
Theorem sent_payloads_reach_connection_in_order
    (msgs : list (list byte)) (fuel : nat) (w : World) (c : Chan) :
  idle w -> send (sess w) = Some c -> Forall is_text (buf c) ->
  (List.length (buf c) + List.length msgs <= 256)%nat ->
  writes_ok w (List.length (buf c) + List.length msgs) ->
  (List.length (buf c) + List.length msgs < fuel)%nat ->
  exists w' evs,
    (Sends msgs ;; SendMessages_loop fuel) w = Block w' /\
    trace w' = trace w ++ evs /\
    written evs = map payload (buf c) ++ msgs /\
    queue w' = [].
Proof.
  intros [Hmu Hi] Hs Ht Hl Hw Hf. rewrite Hs in Hi.
  destruct Hi as (Hc & _ & Hcap & _).
  unfold bind.
  rewrite (Sends_append msgs w c Hmu Hs Hc) by (rewrite Hcap; exact Hl).
  set (c1 := mkChan (buf c ++ map text_frame msgs) (cap c) false).
  set (w1 := put_sess (set_send (Some c1) (sess w)) w).
  destruct (loop_in_order (buf c ++ map text_frame msgs) [] fuel w1 c1)
    as (w' & evs & T & Wr & _ & Q & _ & R);
    try reflexivity; try assumption.
  - cbn. now rewrite app_nil_r.
  - apply Forall_app. split; [assumption|].
    apply Forall_forall. intros f Hin. apply in_map_iff in Hin.
    destruct Hin as (m & <- & _). reflexivity.
  - intros i Hlt. rewrite length_app, length_map in Hlt. now apply Hw.
  - cbn. rewrite length_app, length_map. exact Hf.
  - exists w', evs. cbn [chclosed c1] in R.
    split; [exact R|]. split; [exact T|]. split; [|exact Q].
    rewrite Wr, map_app, map_map. f_equal.
    rewrite <- (map_id msgs) at 2. now apply map_ext.
Qed.

Lemma sent_payloads_reach_connection_in_order_witness :
  idle world0 /\
  exists w' evs,
    (Sends [[x61%byte]; [x62%byte]] ;; SendMessages_loop 3) world0
    = Block w' /\
    trace w' = trace world0 ++ evs /\
    written evs = [[x61%byte]; [x62%byte]] /\
    queue w' = [].
Proof.
  split; [exact idle_world0|].
  apply (sent_payloads_reach_connection_in_order
           [[x61%byte]; [x62%byte]] 3 world0 (make_chan 256) idle_world0
           eq_refl (Forall_nil _)).
  - cbn. lia.
  - intros i _. reflexivity.
  - cbn. lia.
Defined.

(** ** Where the loops and the ping handler leave the session *)

Lemma Disconnect_ends (reason : string) (code : Z) (w : World) :
  idle w ->
  exists w' evs,
    Disconnect reason code w = Ret tt w' /\
    closed (sess w') = true /\ connected (sess w') = false /\
    step_more w w' evs /\
    count is_timer_arm evs = 0%nat /\
    In (EvDisconnect reason code) evs /\ In (EvClose reason code) evs.
Proof.
  split_world w; run_go; finish_more.
Qed.

Lemma Disconnect_again (reason : string) (code : Z) (w : World) :
  mu (sess w) = false -> closed (sess w) = true ->
  connected (sess w) = false ->
  Disconnect reason code w
  = Ret tt (log [EvDisconnect reason code; EvClose reason code] w).
Proof.
  destruct w as [[? [] [] [] ?] ? ? ? ?]; cbn [sess mu closed connected];
    intros; try discriminate. run_go. reflexivity.
Qed.

(** X8. Whenever [SendMessages] returns on a session at rest, it was on a
    failed write or on a close frame, never on the queue-closed or the
    unknown-frame branch, and the deferred [Disconnect] has run: the
    session is closed and no longer connected.  Otherwise the writer waits
    on a drained queue, with [closed] and [connected] as they were. *)
Theorem SendMessages_returns_closed (fuel : nat) (w : World) :
  idle w -> (List.length (queue w) < fuel)%nat ->
  exists w' evs,
    trace w' = trace w ++ evs /\ idle w' /\
    ((SendMessages fuel w = Block w' /\ queue w' = [] /\
      closed (sess w') = closed (sess w) /\
      connected (sess w') = connected (sess w))
     \/
     (exists r,
         SendMessages fuel w = Ret r w' /\
         (r = ExitWriteError \/ r = ExitCloseFrame) /\
         closed (sess w') = true /\ connected (sess w') = false /\
         In (EvDisconnect "Write Failed" CloseAbnormalClosure) evs)).
Proof.
  intros Hi Hlen.
  destruct (loop_more fuel w Hi Hlen)
    as (w1 & e1 & Hs & Hcl & Hco & [[R Q]|[R|R]]);
    unfold SendMessages, bind; rewrite R.
  - exists w1, e1. split; [apply Hs|]. split; [apply Hs|]. left.
    repeat split; assumption.
  - destruct (Disconnect_ends "Write Failed" CloseAbnormalClosure w1)
      as (w2 & e2 & -> & C2 & N2 & S2 & _ & I2 & _); [apply Hs|].
    exists w2, (e1 ++ e2).
    split; [apply (step_more_trans _ _ _ _ _ Hs S2)|]. split; [apply S2|].
    right. exists ExitWriteError. repeat split; auto.
    apply in_or_app. now right.
  - destruct (Disconnect_ends "Write Failed" CloseAbnormalClosure w1)
      as (w2 & e2 & -> & C2 & N2 & S2 & _ & I2 & _); [apply Hs|].
    exists w2, (e1 ++ e2).
    split; [apply (step_more_trans _ _ _ _ _ Hs S2)|]. split; [apply S2|].
    right. exists ExitCloseFrame. repeat split; auto.
    apply in_or_app. now right.
Qed.

Lemma SendMessages_returns_closed_witness :
  idle closed_world /\
  (List.length (queue closed_world) < 2)%nat /\
  exists w', SendMessages 2 closed_world = Ret ExitCloseFrame w'.
Proof.
  split; [exact idle_closed_world|].
  assert (Hl : (List.length (queue closed_world) < 2)%nat) by (cbn; lia).
  split; [exact Hl|].
  destruct (SendMessages_returns_closed 2 closed_world idle_closed_world Hl)
    as (w' & evs & _ & _ & [[R _]|(r & R & _)]).
  - exfalso. vm_compute in R. discriminate.
  - exists w'. vm_compute in R. vm_compute. injection R as _ <-. reflexivity.
Defined.

(** X9. [Disconnect] always leaves the session closed and not connected,
    and is idempotent: a second [Disconnect] changes nothing of the
    session, orders no RPC disconnect and enqueues nothing; it only passes
    through [Close], which returns at once. *)
Theorem Disconnect_closes_and_is_idempotent
    (reason reason2 : string) (code code2 : Z) (w : World) :
  idle w ->
  exists w1 evs,
    Disconnect reason code w = Ret tt w1 /\ trace w1 = trace w ++ evs /\
    closed (sess w1) = true /\ connected (sess w1) = false /\
    Disconnect reason2 code2 w1
    = Ret tt (log [EvDisconnect reason2 code2; EvClose reason2 code2] w1).
Proof.
  intros Hi.
  destruct (Disconnect_ends reason code w Hi)
    as (w1 & evs & R & C & N & S1 & _).
  exists w1, evs. split; [exact R|]. split; [apply S1|].
  split; [exact C|]. split; [exact N|].
  apply Disconnect_again; try assumption. apply S1.
Qed.

Lemma Disconnect_closes_and_is_idempotent_witness :
  idle connected_world /\
  exists w1 evs,
    Disconnect "Read closed" CloseNormalClosure connected_world = Ret tt w1 /\
    trace w1 = trace connected_world ++ evs /\
    closed (sess w1) = true /\ connected (sess w1) = false /\
    Disconnect "Write Failed" CloseAbnormalClosure w1
    = Ret tt (log [EvDisconnect "Write Failed" CloseAbnormalClosure;
                   EvClose "Write Failed" CloseAbnormalClosure] w1).
Proof.
  split; [exact idle_connected_world|].
  exact (Disconnect_closes_and_is_idempotent
           "Read closed" "Write Failed" CloseNormalClosure
           CloseAbnormalClosure connected_world idle_connected_world).
Defined.

(** X10. [Close] asks the node for the RPC disconnect in one case only:
    when its close frame finds the queue full on a connected session, the
    overflow path runs [Disconnect].  In every other case [Close] leaves
    [connected] as it is and the node is not asked. *)
Theorem Close_notifies_only_on_overflow
    (reason : string) (code : Z) (w : World) :
  idle w ->
  exists w' evs,
    Close reason code w = Ret tt w' /\ trace w' = trace w ++ evs /\
    count is_node_disconnect evs
    = (if overflows (sess w) && connected (sess w) then 1%nat else 0%nat) /\
    connected (sess w')
    = (if overflows (sess w) then false else connected (sess w)).
Proof.
  split_world w; unfold overflows; cbn [closed send negb andb connected];
    run_go; give_run; side_goals.
Qed.

Lemma Close_notifies_only_on_overflow_witness :
  idle full_world /\
  exists w' evs,
    Close "bye" CloseNormalClosure full_world = Ret tt w' /\
    trace w' = trace full_world ++ evs /\
    count is_node_disconnect evs = 1%nat /\
    connected (sess w') = false.
Proof.
  split; [exact idle_full_world|].
  destruct (Close_notifies_only_on_overflow "bye" CloseNormalClosure
              full_world idle_full_world) as (w' & evs & R & T & N & C).
  exists w', evs. vm_compute in N, C.
  split; [exact R|]. split; [exact T|]. split; [exact N|exact C].
Defined.




(** X12. When [ReadMessages] meets a read error on a session at rest, with
    a [HandleCommand] that returns and leaves the session at rest, the
    loop returns and the session is closed and no longer connected. *)
Theorem ReadMessages_ends_closed
    (HandleCommand : list byte -> M unit) (msgs : list (list byte))
    (e : ReadError) (rest : list ReadResult) (w : World) :
  (forall m v, idle v -> exists v', HandleCommand m v = Ret tt v' /\ idle v') ->
  idle w ->
  exists w',
    ReadMessages HandleCommand (map ReadOk msgs ++ ReadErr e :: rest) w
    = Ret tt w' /\
    idle w' /\ closed (sess w') = true /\ connected (sess w') = false.
Proof.
  intros HC. revert w.
  induction msgs as [|m ms IH]; intros w Hi; cbn [map app ReadMessages].
  - destruct (IsCloseError e expectedCloseStatuses).
    + destruct (Disconnect_ends "Read closed" CloseNormalClosure w Hi)
        as (w' & evs & R & C & N & S1 & _).
      exists w'. repeat split; try assumption; apply S1.
    + destruct (Disconnect_ends "Read failed" CloseAbnormalClosure w Hi)
        as (w' & evs & R & C & N & S1 & _).
      exists w'. repeat split; try assumption; apply S1.
  - destruct (HC m w Hi) as (v & R & Hv). unfold bind. rewrite R.
    apply IH, Hv.
Qed.

Lemma ReadMessages_ends_closed_witness :
  idle connected_world /\
  exists w',
    ReadMessages Send
      (map ReadOk [[x61%byte]] ++
       [ReadErr (CloseError CloseGoingAway EmptyString); ReadOk [x62%byte]])
      connected_world
    = Ret tt w' /\
    idle w' /\ closed (sess w') = true /\ connected (sess w') = false.
Proof.
  split; [exact idle_connected_world|].
  apply (ReadMessages_ends_closed Send [[x61%byte]]
           (CloseError CloseGoingAway EmptyString) [ReadOk [x62%byte]]
           connected_world).
  - intros m v Hv. destruct (Send_ok m v Hv) as (v' & evs & R & _ & Hi & _).
    now exists v'.
  - exact idle_connected_world.
Defined.

(** X13. A ping whose write fails ends the session: the handler returns
    with the session closed and not connected, the RPC disconnect ordered
    if and only if the session was connected, and no timer armed. *)
Theorem failed_ping_closes_session (w : World) :
  idle w -> write_failed (fst (conn w (wcount w))) = true ->
  exists w' evs,
    sendPing w = Ret tt w' /\ trace w' = trace w ++ evs /\ idle w' /\
    closed (sess w') = true /\ connected (sess w') = false /\
    count is_timer_arm evs = 0%nat /\
    count is_node_disconnect evs
    = (if connected (sess w) then 1%nat else 0%nat).
Proof.
  intros Hi Hf. rewrite sendPing_unfold by apply Hi. rewrite Hf.
  set (w1 := after_write _ _ w).
  assert (H1 : idle w1) by exact Hi.
  destruct (Disconnect_ends "Ping failed" CloseAbnormalClosure w1 H1)
    as (w' & evs & R & C & N & (T & Hi' & _ & Nd & _) & A & _).
  exists w', (EvWrite (now w) (toJSON (mkPing "ping" (now w / Second)))
                (now w + 1500000000) true (fst (conn w (wcount w))) :: evs).
  split; [exact R|].
  split; [rewrite T; unfold w1, after_write; cbn [trace];
          now rewrite <- app_assoc|].
  split; [exact Hi'|]. split; [exact C|]. split; [exact N|].
  split; [exact A|].
  change (count is_node_disconnect evs
          = if connected (sess w) then 1%nat else 0%nat).
  rewrite Nd, N. cbn [negb]. now rewrite andb_true_r.
Qed.

Lemma failed_ping_closes_session_witness :
  idle (mkWorld (set_connected true new_session) 0 0
          (fun _ => (FlushErr, 7)) []) /\
  exists w' evs,
    sendPing (mkWorld (set_connected true new_session) 0 0
                (fun _ => (FlushErr, 7)) [])
    = Ret tt w' /\
    closed (sess w') = true /\ connected (sess w') = false /\
    count is_node_disconnect evs = 1%nat.
Proof.
  assert (Hi : idle (mkWorld (set_connected true new_session) 0 0
                       (fun _ => (FlushErr, 7)) [])).
  { unfold idle, chan_ok; cbn. repeat split; auto; lia. }
  split; [exact Hi|].
  destruct (failed_ping_closes_session _ Hi eq_refl)
    as (w' & evs & R & _ & _ & C & N & _ & D).
  exists w', evs. repeat split; assumption.
Defined.

(** ** The ping payload *)

Lemma append_inv_head (a b c : string) :
  (a ++ b)%string = (a ++ c)%string -> b = c.
Proof.
  induction a as [|ch a IH]; cbn; [trivial|].
  intros H. injection H as H. now apply IH.
Qed.

Lemma list_ascii_of_append (a b : string) :
  list_ascii_of_string (a ++ b)
  = list_ascii_of_string a ++ list_ascii_of_string b.
Proof. induction a as [|ch a IH]; cbn; [reflexivity|now rewrite IH]. Qed.

Lemma append_inv_tail (a b c : string) :
  (a ++ c)%string = (b ++ c)%string -> a = b.
Proof.
  intros H. apply (f_equal list_ascii_of_string) in H.
  rewrite !list_ascii_of_append in H. apply app_inv_tail in H.
  apply (f_equal string_of_list_ascii) in H.
  now rewrite !string_of_list_ascii_of_string in H.
Qed.

Lemma to_int_plain (n : Z) :
  Z.to_int n <> Decimal.Pos Decimal.Nil /\
  Z.to_int n <> Decimal.Neg Decimal.Nil.
Proof.
  destruct n as [|p|p]; cbn; split; try discriminate;
    intros H; injection H as H;
    now apply (DecimalPos.Unsigned.to_uint_nonnil p).
Qed.

(** X14. The payload [newPingMessage] builds determines the Unix second it
    carries: two pings have the same bytes only when they were built in the
    same second, for every second an [int64] holds, negative ones
    included. *)
Theorem ping_payload_determines_seconds (w1 w2 : World) :
  - 2 ^ 63 <= Unix (now w1) < 2 ^ 63 ->
  - 2 ^ 63 <= Unix (now w2) < 2 ^ 63 ->
  (exists p v1 v2,
      newPingMessage w1 = Ret p v1 /\ newPingMessage w2 = Ret p v2) ->
  Unix (now w1) = Unix (now w2).
Proof.
  intros _ _ (p & v1 & v2 & H1 & H2).
  unfold newPingMessage, bind, time_Now, ret in H1, H2.
  injection H1 as H1 _. injection H2 as H2 _. rewrite <- H2 in H1.
  unfold toJSON in H1. cbn [Type_ Message] in H1.
  apply (f_equal string_of_list_byte) in H1.
  rewrite !string_of_list_byte_of_string in H1.
  repeat apply append_inv_head in H1.
  apply append_inv_tail in H1.
  apply (f_equal NilZero.int_of_string) in H1.
  destruct (to_int_plain (Unix (now w1))) as [Hn1 Hn2],
    (to_int_plain (Unix (now w2))) as [Hm1 Hm2].
  rewrite !NilZero.isi in H1 by assumption.
  injection H1 as H1. now apply DecimalZ.to_int_inj.
Qed.

Lemma ping_payload_determines_seconds_witness :
  Unix (now (mkWorld new_session 1700000000000000005 0
               (fun _ => (WriteOk, 0)) []))
  = Unix (now (mkWorld new_session 1700000000999999999 3
                 (fun _ => (FlushErr, 0)) [])).
Proof.
  apply ping_payload_determines_seconds.
  - vm_compute. split; [discriminate|reflexivity].
  - vm_compute. split; [discriminate|reflexivity].
  - eexists; eexists; eexists. split; reflexivity.
Defined.

(** ** metrics.Config *)

(** X15. Logging of metrics is enabled exactly when [Log] is set or a log
    formatter is named, so naming a formatter enables logging even with
    [Log] false; the HTTP endpoint is enabled exactly when [HTTP] is not
    empty; a new [Config] has both disabled. *)
Theorem Metrics_enabled (c : Metrics.Config) :
  (Metrics.LogEnabled c = true <->
   Metrics.Log c = true \/ Metrics.LogFormatter c <> EmptyString) /\
  (Metrics.LogFormatterEnabled c = true -> Metrics.LogEnabled c = true) /\
  (Metrics.HTTPEnabled c = true <-> Metrics.HTTP c <> EmptyString) /\
  Metrics.LogEnabled Metrics.NewConfig = false /\
  Metrics.HTTPEnabled Metrics.NewConfig = false.
Proof.
  unfold Metrics.LogEnabled, Metrics.LogFormatterEnabled, Metrics.HTTPEnabled.
  repeat split; try reflexivity.
  - rewrite orb_true_iff, negb_true_iff. intros [H|H]; [now left|right].
    now apply String.eqb_neq.
  - rewrite orb_true_iff, negb_true_iff. intros [H|H]; [now left|right].
    now apply String.eqb_neq.
  - intros ->. apply orb_true_r.
  - rewrite negb_true_iff. apply String.eqb_neq.
  - rewrite negb_true_iff. apply String.eqb_neq.
Qed.
